(** * Shiptivity API (server.js): the client routes over their SQLite table

    A shallow embedding of [src/shiptivitas-t2/server.js].  The server is an
    Express application holding one better-sqlite3 connection; each route
    handler reads the request, runs prepared statements and calls
    [res.status(..).send(..)].

    The development has four layers, each following the code it stands for:
    - JavaScript values as they arrive in a JSON body, with the operators the
      handlers apply to them ([Number.isNaN], [===], [==], [+], [parseInt]);
    - the better-sqlite3 binder, which decides whether the arguments of
      [get]/[all]/[run] fit the parameters of a prepared statement;
    - the statements of the source, parsed by hand into a small query type
      and run on the table;
    - the handlers, written in a state-and-exception monad whose state is
      the table and the log of [send] calls.

    The database file [clients.db] is not part of the source.  What the
    handlers need of its schema is a parameter ([schema]); the properties
    that depend on the key of [id] say so in their statement. *)

From Stdlib Require Import ZArith List String Ascii Bool Lia DecimalString.
From Stdlib Require Import Permutation FinFun DecimalPos.
Import ListNotations.
Local Open Scope string_scope.
Local Open Scope Z_scope.

(** ** JavaScript values *)

(** A JavaScript number.  The handlers only ever do integer work on numbers
    (ids, priorities, [+ 1]), so a number is an integer or [NaN], which is
    what [parseInt] gives a route parameter without digits; fractional
    doubles and the loss of precision above 2^53 are outside the model. *)
Inductive jsnum : Type :=
| Num (z : Z)
| NaN.

(** What [req.body] can hold after [express.json()], plus [undefined] for a
    missing property.  An object is the list of its own properties. *)
#[warnings="-register-all"]
Inductive value : Type :=
| VUndef
| VNull
| VBool (b : bool)
| VNumber (n : jsnum)
| VStr (s : string)
| VArr (items : list value)
| VObj (fields : list (string * value)).

(** The exceptions a handler can raise, by the constructor that raises them. *)
Inductive exn : Type :=
| TypeError (msg : string)
| RangeError (msg : string)
| SqliteError (msg : string)
| HttpError (code : string).

(** [Number.isNaN(v)]: true for the number NaN only, without coercion. *)
Definition Number_isNaN (v : value) : bool :=
  match v with
  | VNumber NaN => true
  | _ => false
  end.

(** [v !== undefined]. *)
Definition is_defined (v : value) : bool :=
  match v with
  | VUndef => false
  | _ => true
  end.

(** [Number.isSafeInteger]: the integers a double holds exactly, together
    with their successor and predecessor. *)
Definition is_safe_integer (z : Z) : bool :=
  (- 9007199254740991 <=? z) && (z <=? 9007199254740991).

(** [a === b] on numbers: NaN equals nothing. *)
Definition jsnum_strict_eq (a b : jsnum) : bool :=
  match a, b with
  | Num x, Num y => Z.eqb x y
  | _, _ => false
  end.

(** [v === n] for a number [n] (line 150: [client.id === id]). *)
Definition strict_eq_num (v : value) (n : jsnum) : bool :=
  match v with
  | VNumber m => jsnum_strict_eq m n
  | _ => false
  end.

(** Own-property lookup, [obj[key]] restricted to own properties. *)
Fixpoint get_field (key : string) (fields : list (string * value)) : option value :=
  match fields with
  | [] => None
  | (k, v) :: rest => if String.eqb k key then Some v else get_field key rest
  end.

Definition number_to_string (n : jsnum) : string :=
  match n with
  | NaN => "NaN"
  | Num z => NilZero.string_of_int (Z.to_int z)
  end.

Definition cannot_convert : exn :=
  TypeError "Cannot convert object to primitive value".

(** [String(v)].  An array is the comma-joined strings of its elements, with
    [null] and [undefined] elements empty.  A parsed JSON object has no
    callable property of its own, so it prints as [[object Object]] unless an
    own property shadows [toString], and then the conversion throws. *)
Fixpoint to_string (v : value) : exn + string :=
  match v with
  | VUndef => inr "undefined"
  | VNull => inr "null"
  | VBool true => inr "true"
  | VBool false => inr "false"
  | VNumber n => inr (number_to_string n)
  | VStr s => inr s
  | VArr items =>
      (fix join (l : list value) : exn + string :=
         match l with
         | [] => inr ""
         | x :: rest =>
             let elem :=
               match x with
               | VUndef | VNull => inr ""
               | _ => to_string x
               end in
             match elem with
             | inl e => inl e
             | inr s =>
                 match rest with
                 | [] => inr s
                 | _ :: _ =>
                     match join rest with
                     | inl e => inl e
                     | inr t => inr (s ++ "," ++ t)
                     end
                 end
             end
         end) items
  | VObj fields =>
      match get_field "toString" fields with
      | Some _ => inl cannot_convert
      | None => inr "[object Object]"
      end
  end.

(** [v == "complete"] (line 195).  Loose equality against a string compares
    strings exactly, turns arrays and objects into their string first, and
    is false for [null], [undefined], booleans and numbers (the string
    converts to NaN). *)
Definition loose_eq_complete (v : value) : exn + bool :=
  match v with
  | VStr s => inr (String.eqb s "complete")
  | VArr _ | VObj _ =>
      match to_string v with
      | inl e => inl e
      | inr s => inr (String.eqb s "complete")
      end
  | _ => inr false
  end.

(** [v + 1] (lines 124 and 217): string concatenation when the left operand
    is or becomes a string, numeric addition otherwise.  The sum is exact,
    as the sum of doubles is while both numbers are safe integers;
    statements about the sum carry that bound. *)
Definition plus_one (v : value) : exn + value :=
  match v with
  | VUndef => inr (VNumber NaN)
  | VNull => inr (VNumber (Num 1))
  | VBool true => inr (VNumber (Num 2))
  | VBool false => inr (VNumber (Num 1))
  | VNumber (Num z) => inr (VNumber (Num (z + 1)))
  | VNumber NaN => inr (VNumber NaN)
  | VStr s => inr (VStr (s ++ "1"))
  | VArr _ | VObj _ =>
      match to_string v with
      | inl e => inl e
      | inr s => inr (VStr (s ++ "1"))
      end
  end.

(** *** parseInt(s, 10) *)

Definition is_space (c : ascii) : bool :=
  match nat_of_ascii c with
  | 9%nat | 10%nat | 11%nat | 12%nat | 13%nat | 32%nat => true
  | _ => false
  end.

Definition digit_of (c : ascii) : option Z :=
  let n := nat_of_ascii c in
  if (48 <=? n)%nat && (n <=? 57)%nat then Some (Z.of_nat (n - 48)) else None.

Fixpoint skip_spaces (s : string) : string :=
  match s with
  | String c rest => if is_space c then skip_spaces rest else s
  | EmptyString => s
  end.

(** The longest prefix of decimal digits, [None] when it is empty. *)
Fixpoint leading_digits (s : string) (acc : option Z) : option Z :=
  match s with
  | String c rest =>
      match digit_of c with
      | Some d =>
          leading_digits rest
            (Some (10 * match acc with Some a => a | None => 0 end + d))
      | None => acc
      end
  | EmptyString => acc
  end.

(** Leading white space is skipped, one sign is read, then digits up to the
    first other character; no digit at all gives NaN.  Two limits of this
    model: only ASCII white space is skipped, where JavaScript also skips
    the other Unicode spaces, and the result is the exact integer, where
    JavaScript rounds to a double beyond 2^53.  Statements that depend on
    the value read carry the bound [is_safe_integer]. *)
Definition parseInt (s : string) : jsnum :=
  let s := skip_spaces s in
  let '(negative, s) :=
    match s with
    | String "-" rest => (true, rest)
    | String "+" rest => (false, rest)
    | _ => (false, s)
    end in
  match leading_digits s None with
  | None => NaN
  | Some n => Num (if negative then - n else n)
  end.

(** ** SQLite values and the better-sqlite3 binder *)

(** The storage classes the table uses. *)
Inductive sqlval : Type :=
| SNull
| SInt (z : Z)
| SText (s : string).

(** A column value as better-sqlite3 hands it to JavaScript. *)
Definition js_of_sql (v : sqlval) : value :=
  match v with
  | SNull => VNull
  | SInt z => VNumber (Num z)
  | SText s => VStr s
  end.

(** A JavaScript value as the binder stores it: numbers, strings, and
    [null] and [undefined] as NULL (NaN is stored as NULL too); booleans,
    arrays and objects cannot be bound. *)
Definition sql_of_js (v : value) : option sqlval :=
  match v with
  | VUndef => Some SNull
  | VNull => Some SNull
  | VNumber (Num z) => Some (SInt z)
  | VNumber NaN => Some SNull
  | VStr s => Some (SText s)
  | _ => None
  end.

(** The parameters of a prepared statement in index order (the first has
    index 1): [None] for an anonymous [?], [Some name] for a named parameter,
    the name without its [$] prefix, as the binder's map keeps it. *)
Definition params := list (option string).

(** Parameter values by index; the latest binding of an index is in front. *)
Definition bindings := list (nat * sqlval).

Record binder : Type := mkBinder {
  anon_index : nat;
  bound : bindings
}.

Fixpoint skip_named (ps : params) (i : nat) : nat :=
  match ps with
  | Some _ :: rest => skip_named rest (S i)
  | _ => i
  end.

(** [NextAnonIndex]: the next index after [anon_index] that does not carry a
    name, whether or not the statement has a parameter there. *)
Definition NextAnonIndex (ps : params) (b : binder) : nat :=
  skip_named (skipn (anon_index b) ps) (S (anon_index b)).

(** [BindValue]: the value must be of a bindable type and the index must be
    one of the statement's. *)
Definition BindValue (ps : params) (v : value) (index : nat) (bs : bindings)
  : exn + bindings :=
  match sql_of_js v with
  | None =>
      inl (TypeError
             "SQLite3 can only bind numbers, strings, bigints, buffers, and null")
  | Some sv =>
      if (1 <=? index)%nat && (index <=? List.length ps)%nat
      then inr ((index, sv) :: bs)
      else inl (RangeError "Too many parameter values were provided")
  end.

(** [BindArray]: every element goes to the next anonymous index.  The
    result carries the number of values bound. *)
Fixpoint BindArray (ps : params) (items : list value) (b : binder)
  : exn + (binder * nat) :=
  match items with
  | [] => inr (b, 0%nat)
  | x :: rest =>
      let i := NextAnonIndex ps b in
      match BindValue ps x i (bound b) with
      | inl e => inl e
      | inr bs =>
          match BindArray ps rest (mkBinder i bs) with
          | inl e => inl e
          | inr (b', n) => inr (b', S n)
          end
      end
  end.

(** The binder's map: each named parameter with its index. *)
Fixpoint named_from (ps : params) (i : nat) : list (string * nat) :=
  match ps with
  | [] => []
  | Some n :: rest => (n, i) :: named_from rest (S i)
  | None :: rest => named_from rest (S i)
  end.

Definition bind_map (ps : params) : list (string * nat) := named_from ps 1%nat.

(** The double quote, for the messages that quote a name. *)
Definition dquote : string := String "034" EmptyString.

(** [BindObject]: every named parameter must be an own property of the
    object, under the parameter's bare name. *)
Fixpoint BindObject_pairs (ps : params) (pairs : list (string * nat))
    (fields : list (string * value)) (bs : bindings) : exn + (bindings * nat) :=
  match pairs with
  | [] => inr (bs, 0%nat)
  | (name, index) :: rest =>
      match get_field name fields with
      | None =>
          inl (RangeError ("Missing named parameter " ++ dquote ++ name ++ dquote))
      | Some v =>
          match BindValue ps v index bs with
          | inl e => inl e
          | inr bs' =>
              match BindObject_pairs ps rest fields bs' with
              | inl e => inl e
              | inr (bs'', n) => inr (bs'', S n)
              end
          end
      end
  end.

Definition BindObject (ps : params) (fields : list (string * value)) (b : binder)
  : exn + (binder * nat) :=
  match BindObject_pairs ps (bind_map ps) fields (bound b) with
  | inl e => inl e
  | inr (bs, n) => inr (mkBinder (anon_index b) bs, n)
  end.

(** The loop of [Bind] over the arguments of [get], [all] or [run]: an array
    spreads over anonymous parameters, one plain object supplies the named
    ones, any other value is one anonymous parameter. *)
Fixpoint Bind_args (ps : params) (args : list value) (b : binder)
    (count : nat) (bound_object : bool) : exn + (binder * nat * bool) :=
  match args with
  | [] => inr (b, count, bound_object)
  | VArr items :: rest =>
      match BindArray ps items b with
      | inl e => inl e
      | inr (b', n) => Bind_args ps rest b' (count + n)%nat bound_object
      end
  | VObj fields :: rest =>
      if bound_object
      then inl (TypeError
                  "You cannot specify named parameters in two different objects")
      else
        match BindObject ps fields b with
        | inl e => inl e
        | inr (b', n) => Bind_args ps rest b' (count + n)%nat true
        end
  | v :: rest =>
      let i := NextAnonIndex ps b in
      match BindValue ps v i (bound b) with
      | inl e => inl e
      | inr bs => Bind_args ps rest (mkBinder i bs) (S count) bound_object
      end
  end.

(** [Bind]: after the loop the number of values bound must be the number of
    parameters of the statement. *)
Definition Bind (ps : params) (args : list value) : exn + bindings :=
  match Bind_args ps args (mkBinder 0 []) 0 false with
  | inl e => inl e
  | inr (b, count, bound_object) =>
      if (count =? List.length ps)%nat then inr (bound b)
      else if (count <? List.length ps)%nat then
        if negb bound_object && negb (List.length (bind_map ps) =? 0)%nat
        then inl (TypeError "Missing named parameters")
        else inl (RangeError "Too few parameter values were provided")
      else inl (RangeError "Too many parameter values were provided")
  end.

(** The value of parameter [i], NULL when it was left unbound. *)
Fixpoint param_value (i : nat) (bs : bindings) : sqlval :=
  match bs with
  | [] => SNull
  | (j, v) :: rest => if (j =? i)%nat then v else param_value i rest
  end.

(** ** The clients table and the statements of the source *)

(** One row of [clients], column by column.  SQLite types values, not
    columns, so every column holds an [sqlval]. *)
Record row : Type := mkRow {
  r_id : sqlval;
  r_name : sqlval;
  r_description : sqlval;
  r_status : sqlval;
  r_priority : sqlval
}.

(** The table in the order a scan of it visits the rows.  A query without an
    [ORDER BY], or ordered by a constant, returns rows in this order. *)
Definition table := list row.

Inductive column : Type := Cid | Cname | Cdescription | Cstatus | Cpriority.

Definition col (c : column) (r : row) : sqlval :=
  match c with
  | Cid => r_id r
  | Cname => r_name r
  | Cdescription => r_description r
  | Cstatus => r_status r
  | Cpriority => r_priority r
  end.

Definition set_col (c : column) (v : sqlval) (r : row) : row :=
  match c with
  | Cid => mkRow v (r_name r) (r_description r) (r_status r) (r_priority r)
  | Cname => mkRow (r_id r) v (r_description r) (r_status r) (r_priority r)
  | Cdescription => mkRow (r_id r) (r_name r) v (r_status r) (r_priority r)
  | Cstatus => mkRow (r_id r) (r_name r) (r_description r) v (r_priority r)
  | Cpriority => mkRow (r_id r) (r_name r) (r_description r) (r_status r) v
  end.

(** What the handlers depend on in the schema of [clients].  The database
    file is not part of the source, so both are parameters: whether the
    table enforces a unique key on [id], and what [=] answers when a column
    value and a bound value are of different storage classes (SQLite then
    converts one of them by the declared type of the column).  The table has
    the five columns of [row], in that order, as line 199 supplies them. *)
Record schema : Type := mkSchema {
  primary_key : bool;
  affinity_eq : column -> sqlval -> sqlval -> bool
}.

Inductive operand : Type :=
| Param (index : nat)
| Lit (v : sqlval).

(** A conjunction of [column = operand] tests. *)
Definition condition := list (column * operand).

(** The statements the source prepares, after parsing. *)
Inductive sql : Type :=
| Select (where_ : condition) (limit : option nat)
| Update (set_ : list (column * operand)) (where_ : condition)
| Insert (v1 v2 v3 v4 v5 : operand).

Record statement : Type := mkStatement {
  query : sql;
  parameters : params
}.

Definition syntax_error (near : string) : exn :=
  SqliteError ("near " ++ dquote ++ near ++ dquote ++ ": syntax error").

(** [db.prepare(text)] for the texts that occur in the source, each with the
    line it is on.  [ORDER BY 'priority'] orders by a string constant, which
    is the same for every row, so it does not appear in the parsed query.
    The text of line 169 has no [FROM] and does not parse. *)
Definition prepare_text (text : string) : exn + statement :=
  if String.eqb text "select * from clients where id = ? limit 1" (* 37 *) then
    inr (mkStatement (Select [(Cid, Param 1)] (Some 1%nat)) [None])
  else if String.eqb text "select * from clients where status = ?" (* 92 *) then
    inr (mkStatement (Select [(Cstatus, Param 1)] None) [None])
  else if String.eqb text "select * from clients" (* 96, 149 *) then
    inr (mkStatement (Select [] None) [])
  else if String.eqb text "select * from clients where id = ?" (* 113 *) then
    inr (mkStatement (Select [(Cid, Param 1)] None) [None])
  else if String.eqb text "SELECT * FROM clients WHERE status = 'complete' ORDER BY 'priority'"
          (* 119, 212 *) then
    inr (mkStatement (Select [(Cstatus, Lit (SText "complete"))] None) [])
  else if String.eqb text "SELECT * FROM clients WHERE status = $status AND priority = $priority"
          (* 160 *) then
    inr (mkStatement (Select [(Cstatus, Param 1); (Cpriority, Param 2)] None)
           [Some "status"; Some "priority"])
  else if String.eqb text "SELECT * clients WHERE status = $status AND priority >= $priority ORDER BY 'priority'"
          (* 169 *) then
    inl (syntax_error "clients")
  else if String.eqb text "UPDATE clients SET priority = $priority WHERE id = $id" (* 177 *) then
    inr (mkStatement (Update [(Cpriority, Param 1)] [(Cid, Param 2)])
           [Some "priority"; Some "id"])
  else if String.eqb text "UPDATE clients SET status = $status, priority = $priority WHERE id = $id"
          (* 189 *) then
    inr (mkStatement
           (Update [(Cstatus, Param 1); (Cpriority, Param 2)] [(Cid, Param 3)])
           [Some "status"; Some "priority"; Some "id"])
  else if String.eqb text "INSERT INTO clients VALUES (?, ?, ?, ?, ?) " (* 199 *) then
    inr (mkStatement (Insert (Param 1) (Param 2) (Param 3) (Param 4) (Param 5))
           [None; None; None; None; None])
  else inl (syntax_error text).

Section Store.

Variable sch : schema.

(** [a = b] in a [WHERE] clause, [a] the value of column [c]: never true
    against NULL, exact within a storage class, by affinity across two. *)
Definition sql_eq (c : column) (a b : sqlval) : bool :=
  match a, b with
  | SNull, _ | _, SNull => false
  | SInt x, SInt y => Z.eqb x y
  | SText s, SText t => String.eqb s t
  | _, _ => affinity_eq sch c a b
  end.

Definition eval_operand (bs : bindings) (o : operand) : sqlval :=
  match o with
  | Param i => param_value i bs
  | Lit v => v
  end.

Definition holds (bs : bindings) (w : condition) (r : row) : bool :=
  forallb (fun '(c, o) => sql_eq c (col c r) (eval_operand bs o)) w.

Definition select_rows (bs : bindings) (w : condition) (limit : option nat)
    (t : table) : list row :=
  let hits := filter (holds bs w) t in
  match limit with
  | Some n => firstn n hits
  | None => hits
  end.

(** [UPDATE ... SET]: no statement of the source assigns [id], so the key
    needs no check here. *)
Definition assign (bs : bindings) (sets : list (column * operand)) (r : row) : row :=
  fold_left (fun r' '(c, o) => set_col c (eval_operand bs o) r') sets r.

Definition update_rows (bs : bindings) (sets : list (column * operand))
    (w : condition) (t : table) : table :=
  map (fun r => if holds bs w r then assign bs sets r else r) t.

(** Two keys collide when they are equal values of one storage class; NULL
    collides with nothing. *)
Definition same_key (a b : sqlval) : bool :=
  match a, b with
  | SInt x, SInt y => Z.eqb x y
  | SText s, SText t => String.eqb s t
  | _, _ => false
  end.

(** [INSERT]: refused when the table enforces its key and already has the
    id; otherwise the new row is the last one a scan visits.  (The handlers
    only ever insert the id of a row they have read, so where a keyed table
    would place a fresh id does not arise.) *)
Definition insert_row (r : row) (t : table) : exn + table :=
  if primary_key sch && existsb (fun r' => same_key (r_id r') (r_id r)) t
  then inl (SqliteError "UNIQUE constraint failed: clients.id")
  else inr (t ++ [r])%list.

End Store.

(** ** Handlers: state, exceptions and the response *)

(** A row as the JavaScript object better-sqlite3 builds from it.  Its
    properties can be assigned any value afterwards (lines 197 and 198). *)
Record jsrow : Type := mkJsrow {
  j_id : value;
  j_name : value;
  j_description : value;
  j_status : value;
  j_priority : value
}.

Definition js_of_row (r : row) : jsrow :=
  mkJsrow (js_of_sql (r_id r)) (js_of_sql (r_name r))
    (js_of_sql (r_description r)) (js_of_sql (r_status r))
    (js_of_sql (r_priority r)).

(** What a handler passes to [res.send]. *)
Inductive body : Type :=
| BUndefined
| BMessage (message long_message : string)
| BRow (r : jsrow)
| BRows (rs : list jsrow).

(** The state a handler runs in: the table behind the one connection, and
    every call of [res.status(code).send(body)] on this request's response,
    oldest first.  The client receives the first of them. *)
Record world : Type := mkWorld {
  db : table;
  sends : list (Z * body)
}.

Inductive outcome (A : Type) : Type :=
| Returned (a : A)
| Thrown (e : exn).

Arguments Returned {A} a.
Arguments Thrown {A} e.

(** A computation keeps the state it reached when it throws: the handlers open
    no transaction, so a write made before an exception stays. *)
Definition M (A : Type) : Type := world -> outcome A * world.

Definition ret {A : Type} (a : A) : M A := fun w => (Returned a, w).

Definition throw {A : Type} (e : exn) : M A := fun w => (Thrown e, w).

Definition bind {A B : Type} (m : M A) (k : A -> M B) : M B :=
  fun w =>
    match m w with
    | (Returned a, w') => k a w'
    | (Thrown e, w') => (Thrown e, w')
    end.

Definition lift {A : Type} (r : exn + A) : M A :=
  match r with
  | inl e => throw e
  | inr a => ret a
  end.

Declare Scope handler_scope.
Delimit Scope handler_scope with handler.
Notation "x <- m ;; k" := (bind m (fun x => k))
  (at level 61, m at next level, right associativity) : handler_scope.
Notation "m ;; k" := (bind m (fun _ => k))
  (at level 61, right associativity) : handler_scope.
Local Open Scope handler_scope.

(** [res.status(code).send(body)].  Once a response has gone out, sending an
    object again fails on its headers; sending [undefined] again sets none and
    is dropped silently. *)
Definition send (code : Z) (b : body) : M unit :=
  fun w =>
    let w' := mkWorld (db w) (sends w ++ [(code, b)])%list in
    match sends w, b with
    | [], _ => (Returned tt, w')
    | _ :: _, BUndefined => (Returned tt, w')
    | _ :: _, _ => (Thrown (HttpError "ERR_HTTP_HEADERS_SENT"), w')
    end.


Definition not_returning : exn :=
  TypeError "This statement does not return data. Use run() instead".

(** [array[array.length - 1]]: the last element, [undefined] on an empty
    array. *)
Fixpoint last_item {A : Type} (l : list A) : option A :=
  match l with
  | [] => None
  | [x] => Some x
  | _ :: rest => last_item rest
  end.

(** [array.find(p)] together with the position found: the result aliases the
    array's element, so a later assignment to it is an update at that
    position. *)
Fixpoint find_from {A : Type} (p : A -> bool) (l : list A) (i : nat)
  : option (nat * A) :=
  match l with
  | [] => None
  | x :: rest => if p x then Some (i, x) else find_from p rest (S i)
  end.

Fixpoint replace_at {A : Type} (i : nat) (x : A) (l : list A) : list A :=
  match l, i with
  | [], _ => []
  | _ :: rest, O => x :: rest
  | y :: rest, S j => y :: replace_at j x rest
  end.

Fixpoint forEach {A : Type} (l : list A) (f : A -> M unit) : M unit :=
  match l with
  | [] => ret tt
  | x :: rest => f x ;; forEach rest f
  end.

Definition truthy (v : value) : bool :=
  match v with
  | VUndef | VNull | VBool false | VNumber NaN | VNumber (Num 0) | VStr "" => false
  | _ => true
  end.

(** [v !== s] for a string literal [s]. *)
Definition strict_neq_str (v : value) (s : string) : bool :=
  match v with
  | VStr t => negb (String.eqb t s)
  | _ => true
  end.

Record validation : Type := mkValidation {
  valid : bool;
  messageObj : body
}.

(** Lines 57-70. *)
Definition validatePriority (priority : value) : validation :=
  if Number_isNaN priority then
    mkValidation false
      (BMessage "Invalid priority provided."
         "Priority can only be positive integer.")
  else mkValidation true BUndefined.

Section Server.

Variable sch : schema.

Definition prepare (text : string) : M statement := lift (prepare_text text).

(** [statement.all(...args)]. *)
Definition stmt_all (st : statement) (args : list value) : M (list jsrow) :=
  match query st with
  | Select w limit =>
      bs <- lift (Bind (parameters st) args) ;;
      fun s => (Returned (map js_of_row (select_rows sch bs w limit (db s))), s)
  | _ => throw not_returning
  end.

(** [statement.get(...args)]: the first row, or [undefined]. *)
Definition stmt_get (st : statement) (args : list value) : M (option jsrow) :=
  match query st with
  | Select w limit =>
      bs <- lift (Bind (parameters st) args) ;;
      fun s =>
        (Returned (hd_error (map js_of_row (select_rows sch bs w limit (db s)))), s)
  | _ => throw not_returning
  end.

(** [statement.run(...args)]: each statement is its own transaction. *)
Definition stmt_run (st : statement) (args : list value) : M unit :=
  bs <- lift (Bind (parameters st) args) ;;
  match query st with
  | Select _ _ => ret tt
  | Update sets w =>
      fun s => (Returned tt, mkWorld (update_rows sch bs sets w (db s)) (sends s))
  | Insert v1 v2 v3 v4 v5 =>
      let r := mkRow (eval_operand bs v1) (eval_operand bs v2)
                 (eval_operand bs v3) (eval_operand bs v4) (eval_operand bs v5) in
      fun s =>
        match insert_row sch r (db s) with
        | inl e => (Thrown e, s)
        | inr t => (Returned tt, mkWorld t (sends s))
        end
  end.

(** Lines 26-51. *)
Definition validateId (id : jsnum) : M validation :=
  if Number_isNaN (VNumber id) then
    ret (mkValidation false
           (BMessage "Invalid id provided." "Id can only be integer."))
  else
    st <- prepare "select * from clients where id = ? limit 1" ;;
    client <- stmt_get st [VNumber id] ;;
    match client with
    | None =>
        ret (mkValidation false
               (BMessage "Invalid id provided." "Cannot find client with that id."))
    | Some _ => ret (mkValidation true BUndefined)
    end.

(** Lines 76-99, [GET /api/v1/clients], [status] being [req.query.status]. *)
Definition get_clients (status : value) : M unit :=
  if truthy status then
    if strict_neq_str status "backlog" && strict_neq_str status "in-progress"
       && strict_neq_str status "complete"
    then
      send 400
        (BMessage "Invalid status provided."
           "Status can only be one of the following: [backlog | in-progress | complete].")
    else
      st <- prepare "select * from clients where status = ?" ;;
      clients <- stmt_all st [status] ;;
      send 200 (BRows clients)
  else
    statement <- prepare "select * from clients" ;;
    clients <- stmt_all statement [] ;;
    send 200 (BRows clients).

(** Lines 105-114, [GET /api/v1/clients/:id].  The 400 of line 109 is not
    returned, so line 111 runs in every case. *)
Definition get_client (id_param : string) : M unit :=
  let id := parseInt id_param in
  v <- validateId id ;;
  (if negb (valid v) then send 400 (messageObj v) else ret tt) ;;
  st <- prepare "select * from clients where id = ?" ;;
  client <- stmt_get st [VNumber id] ;;
  send 200 (match client with
            | Some r => BRow r
            | None => BUndefined
            end).

Definition undefined_priority : exn :=
  TypeError "Cannot read properties of undefined (reading 'priority')".

(** Lines 116-125. *)
Definition getLowestPriority : M value :=
  st <- prepare "SELECT * FROM clients WHERE status = 'complete' ORDER BY 'priority'" ;;
  stmt <- stmt_all st [] ;;
  match last_item stmt with
  | None => throw undefined_priority
  | Some leastPriorityClient => lift (plus_one (j_priority leastPriorityClient))
  end.

(** Lines 210-218. *)
Definition newLowestPriority : M value :=
  complete_swimlane_stmt <-
    prepare "SELECT * FROM clients WHERE status = 'complete' ORDER BY 'priority'" ;;
  complete_swimlane <- stmt_all complete_swimlane_stmt [] ;;
  match last_item complete_swimlane with
  | None => throw undefined_priority
  | Some leastPriorityClient => lift (plus_one (j_priority leastPriorityClient))
  end.

(** Lines 156-194: the branch taken when a priority is supplied.  The object
    of line 171 has the properties [status] and [priority]; the object of
    line 190 has the properties [$status], [$priority] and [$id]. *)
Definition reorder_clients (id : jsnum) (status priority : value) : M unit :=
  lookup <-
    prepare "SELECT * FROM clients WHERE status = $status AND priority = $priority" ;;
  conflictClient <- stmt_get lookup [status; priority] ;;
  let priorityConflict :=
    match conflictClient with
    | Some _ => true
    | None => false
    end in
  (if priorityConflict then
     swimlane <-
       prepare "SELECT * clients WHERE status = $status AND priority >= $priority ORDER BY 'priority'" ;;
     clientSwimlane <-
       stmt_all swimlane [VObj [("status", status); ("priority", priority)]] ;;
     updatePriority <-
       prepare "UPDATE clients SET priority = $priority WHERE id = $id" ;;
     forEach clientSwimlane
       (fun client =>
          next <- lift (plus_one (j_priority client)) ;;
          stmt_run updatePriority [VObj [("priority", next); ("id", j_id client)]])
   else ret tt) ;;
  update <-
    prepare "UPDATE clients SET status = $status, priority = $priority WHERE id = $id" ;;
  stmt_run update
    [VObj [("$status", status); ("$priority", priority); ("$id", VNumber id)]].

Definition undefined_client : exn :=
  TypeError "Cannot set properties of undefined (setting 'priority')".

(** Lines 195-207: the branch for [status == "complete"] without a priority.
    [client] is an element of [clients], so the two assignments change the
    array that line 208 sends; the result is that array. *)
Definition mark_complete (clients : list jsrow) (client : option (nat * jsrow))
    (status : value) : M (list jsrow) :=
  clientPriority <- newLowestPriority ;;
  priority <- newLowestPriority ;;
  match client with
  | None => throw undefined_client
  | Some (i, c) =>
      let client := mkJsrow (j_id c) (j_name c) (j_description c) status priority in
      let clients := replace_at i client clients in
      stmt <- prepare "INSERT INTO clients VALUES (?, ?, ?, ?, ?) " ;;
      stmt_run stmt
        [j_id client; j_name client; j_description client; status; clientPriority] ;;
      ret clients
  end.

(** Lines 152-207, the part of the handler under [Update code below]: the
    [if] of line 156 and its [else if] of line 195.  The result is the
    [clients] array as line 208 finds it. *)
Definition update_code (id : jsnum) (status priority : value)
    (clients : list jsrow) (client : option (nat * jsrow)) : M (list jsrow) :=
  if valid (validatePriority priority) && is_defined priority then
    reorder_clients id status priority ;;
    ret clients
  else
    complete <- lift (loose_eq_complete status) ;;
    if complete : bool then mark_complete clients client status
    else ret clients.

(** Lines 141-209, [PUT /api/v1/clients/:id] with [status] and [priority]
    the two properties read from [req.body].  As in [get_client] the 400 of
    line 145 is not returned. *)
Definition put_client (id_param : string) (status priority : value) : M unit :=
  let id := parseInt id_param in
  v <- validateId id ;;
  (if negb (valid v) then send 400 (messageObj v) else ret tt) ;;
  all <- prepare "select * from clients" ;;
  clients <- stmt_all all [] ;;
  let client := find_from (fun c => strict_eq_num (j_id c) id) clients 0 in
  clients' <- update_code id status priority clients client ;;
  send 200 (BRows clients').

(** One request on a fresh response object. *)
Definition serve (handler : M unit) (t : table) : outcome unit * world :=
  handler (mkWorld t []).

End Server.

(** A [PUT] request: the route parameter and the two body properties. *)
Record put_request : Type := mkPut {
  put_id : string;
  put_status : value;
  put_priority : value
}.

Definition serve_put (sch : schema) (r : put_request) (t : table)
  : outcome unit * world :=
  serve (put_client sch (put_id r) (put_status r) (put_priority r)) t.

(** The table after a sequence of [PUT] requests served one after another. *)
Definition serve_puts (sch : schema) (rs : list put_request) (t : table) : table :=
  fold_left (fun t' r => db (snd (serve_put sch r t'))) rs t.

(** ** Lanes and the dense-priority invariant *)

Definition lanes : list string := ["backlog"; "in-progress"; "complete"].

Definition in_lane (lane : string) (r : row) : bool :=
  match r_status r with
  | SText s => String.eqb s lane
  | _ => false
  end.

Definition lane_rows (lane : string) (t : table) : list row :=
  filter (in_lane lane) t.

Definition lane_priorities (lane : string) (t : table) : list sqlval :=
  map r_priority (lane_rows lane t).

Definition is_priority (p : Z) (v : sqlval) : bool :=
  match v with
  | SInt z => Z.eqb z p
  | _ => false
  end.

Definition occurrences (p : Z) (vs : list sqlval) : nat :=
  List.length (filter (is_priority p) vs).

(** The priorities of a lane of [n] rows are exactly 1, 2, ..., n: each of
    these numbers is the priority of exactly one row of the lane, which
    leaves no row for a duplicate or for any other value. *)
Definition dense (lane : string) (t : table) : bool :=
  let ps := lane_priorities lane t in
  forallb (fun k => (occurrences (Z.of_nat k) ps =? 1)%nat)
    (seq 1 (List.length ps)).

(** The priorities a lane of [n] rows must carry. *)
Definition lane_targets (n : nat) : list sqlval :=
  map (fun k => SInt (Z.of_nat k)) (seq 1 n).


(** ** Sample data *)

(** Modelled from the spec: the schema of [clients], which the source does
    not contain.  The spec's data model makes [id] the unique, immutable
    primary key of a record.  Comparisons across storage classes are taken
    to fail, as for columns declared without a type; no theorem below
    depends on that choice. *)
Definition keyed : schema := mkSchema true (fun _ _ _ => false).

(** The same table without the key, for comparison. *)
Definition unkeyed : schema := mkSchema false (fun _ _ _ => false).

Definition client_row (i : Z) (status : string) (priority : Z) : row :=
  mkRow (SInt i) (SText "client") (SText "about") (SText status) (SInt priority).

(** Three cards in the backlog, two complete. *)
Definition board : table :=
  [ client_row 1 "backlog" 1; client_row 2 "backlog" 2; client_row 3 "backlog" 3;
    client_row 4 "complete" 1; client_row 5 "complete" 2 ].

(** One card in the backlog and a complete lane whose highest priority is 5. *)
Definition five_complete : table :=
  [ client_row 1 "backlog" 1;
    client_row 2 "complete" 1; client_row 3 "complete" 2;
    client_row 4 "complete" 3; client_row 5 "complete" 4;
    client_row 6 "complete" 5 ].

(** No card is complete. *)
Definition none_complete : table :=
  [ client_row 1 "backlog" 1; client_row 2 "in-progress" 1 ].

(** A dense complete lane whose scan order is not its priority order. *)
Definition unordered_complete : table :=
  [ client_row 1 "backlog" 1; client_row 2 "complete" 2; client_row 3 "complete" 1 ].

(** ** Names used in the statements below *)

(** The value the binder stores for a parsed id. *)
Definition bound_id (id : jsnum) : sqlval :=
  match id with
  | Num z => SInt z
  | NaN => SNull
  end.

(** The result of [validateId] on a bad id (lines 28-34 and 40-46). *)
Definition invalid_id (long_message : string) : validation :=
  mkValidation false (BMessage "Invalid id provided." long_message).


(** Text that ends a number for [parseInt]: nothing, or something that does
    not start with a digit. *)
Definition ends_number (s : string) : bool :=
  match s with
  | EmptyString => true
  | String c _ =>
      match digit_of c with
      | None => true
      | Some _ => false
      end
  end.

(** The values of [status] that line 195 takes for [complete]: the string
    itself, or an array of one element that is such a value. *)
Inductive complete_like : value -> Prop :=
| complete_string : complete_like (VStr "complete")
| complete_array v : complete_like v -> complete_like (VArr [v]).

(** A column value that JavaScript reads exactly: anything but an integer
    beyond the safe range, which it would round to a double. *)
Definition safe_value (v : sqlval) : bool :=
  match v with
  | SInt z => is_safe_integer z
  | _ => true
  end.

Definition safe_row (r : row) : bool :=
  safe_value (r_id r) && safe_value (r_name r) && safe_value (r_description r)
  && safe_value (r_status r) && safe_value (r_priority r).

(** * Properties *)

(** ** The statements that parse, and the one that does not *)

Lemma prepare_by_id_limit w :
  prepare "select * from clients where id = ? limit 1" w
  = (Returned (mkStatement (Select [(Cid, Param 1)] (Some 1%nat)) [None]), w).
Proof. reflexivity. Qed.

Lemma prepare_by_id w :
  prepare "select * from clients where id = ?" w
  = (Returned (mkStatement (Select [(Cid, Param 1)] None) [None]), w).
Proof. reflexivity. Qed.

Lemma prepare_all w :
  prepare "select * from clients" w
  = (Returned (mkStatement (Select [] None) []), w).
Proof. reflexivity. Qed.

Lemma prepare_complete w :
  prepare "SELECT * FROM clients WHERE status = 'complete' ORDER BY 'priority'" w
  = (Returned (mkStatement (Select [(Cstatus, Lit (SText "complete"))] None) []), w).
Proof. reflexivity. Qed.

Lemma prepare_conflict w :
  prepare "SELECT * FROM clients WHERE status = $status AND priority = $priority" w
  = (Returned
       (mkStatement (Select [(Cstatus, Param 1); (Cpriority, Param 2)] None)
          [Some "status"; Some "priority"]), w).
Proof. reflexivity. Qed.

Lemma prepare_swimlane w :
  prepare "SELECT * clients WHERE status = $status AND priority >= $priority ORDER BY 'priority'" w
  = (Thrown (syntax_error "clients"), w).
Proof. reflexivity. Qed.

Lemma prepare_update w :
  prepare "UPDATE clients SET status = $status, priority = $priority WHERE id = $id" w
  = (Returned
       (mkStatement
          (Update [(Cstatus, Param 1); (Cpriority, Param 2)] [(Cid, Param 3)])
          [Some "status"; Some "priority"; Some "id"]), w).
Proof. reflexivity. Qed.

Lemma prepare_insert w :
  prepare "INSERT INTO clients VALUES (?, ?, ?, ?, ?) " w
  = (Returned
       (mkStatement (Insert (Param 1) (Param 2) (Param 3) (Param 4) (Param 5))
          [None; None; None; None; None]), w).
Proof. reflexivity. Qed.

(** ** Facts about the binder *)

Lemma skip_named_le ps i : (i <= skip_named ps i)%nat.
Proof.
  revert i. induction ps as [|[n|] ps IH]; intros i; simpl; try lia.
  specialize (IH (S i)). lia.
Qed.

Lemma NextAnonIndex_gt ps b : (anon_index b < NextAnonIndex ps b)%nat.
Proof. unfold NextAnonIndex. pose proof (skip_named_le (skipn (anon_index b) ps) (S (anon_index b))). lia. Qed.

(** The object of line 190 names its properties with the [$] prefix, and the
    binder looks for the bare names: whatever the three values are, binding
    it to the statement of line 189 fails on the first parameter. *)
Lemma Bind_prefixed_object status priority id :
  Bind [Some "status"; Some "priority"; Some "id"]
    [VObj [("$status", status); ("$priority", priority); ("$id", id)]]
  = inl (RangeError ("Missing named parameter " ++ dquote ++ "status" ++ dquote)).
Proof. reflexivity. Qed.

Lemma Bind_one_number id :
  Bind [None] [VNumber id]
  = inr [(1%nat, match id with Num z => SInt z | NaN => SNull end)].
Proof. destruct id; reflexivity. Qed.

(** ** The priority branch of [PUT] *)

(** Whatever [status] and [priority] are, the branch of lines 157-194 ends in
    an exception and leaves the table and the response as they were: either
    the arguments of line 162 do not bind, or the lookup finds a row and
    line 169 does not parse, or it finds none and line 190 does not bind. *)
Lemma reorder_clients_throws sch id status priority w :
  exists e, reorder_clients sch id status priority w = (Thrown e, w).
Proof.
  unfold reorder_clients, bind.
  rewrite prepare_conflict.
  unfold stmt_get, bind, lift. cbn [query parameters].
  destruct (Bind [Some "status"; Some "priority"] [status; priority]) as [e|bs].
  - eexists; reflexivity.
  - cbn [ret].
    destruct (hd_error _) as [r|].
    + rewrite prepare_swimlane. eexists; reflexivity.
    + cbn [ret]. rewrite prepare_update.
      unfold stmt_run, bind, lift. cbn [query parameters].
      rewrite Bind_prefixed_object. eexists; reflexivity.
Qed.

(** ** Reading the table *)

Lemma filter_all {A : Type} (p : A -> bool) (l : list A) :
  (forall x, In x l -> p x = true) -> filter p l = l.
Proof.
  induction l as [|x l IH]; intros H; simpl; [reflexivity|].
  rewrite (H x (or_introl eq_refl)). f_equal. apply IH.
  intros y Hy. apply H. right. exact Hy.
Qed.

Lemma filter_none {A : Type} (p : A -> bool) (l : list A) :
  (forall x, In x l -> p x = false) -> filter p l = [].
Proof.
  induction l as [|x l IH]; intros H; simpl; [reflexivity|].
  rewrite (H x (or_introl eq_refl)). apply IH.
  intros y Hy. apply H. right. exact Hy.
Qed.

Lemma filter_some {A : Type} (p : A -> bool) (l : list A) (x : A) :
  In x l -> p x = true -> exists y rest, filter p l = y :: rest.
Proof.
  induction l as [|z l IH]; intros Hin Hp; [destruct Hin|].
  simpl. destruct (p z) eqn:Hz.
  - eauto.
  - destruct Hin as [->|Hin]; [congruence|]. auto.
Qed.

(** [select * from clients] returns the whole table in scan order. *)
Lemma select_everything sch bs t : select_rows sch bs [] None t = t.
Proof. unfold select_rows. apply filter_all. reflexivity. Qed.

Lemma all_clients sch w :
  stmt_all sch (mkStatement (Select [] None) []) [] w
  = (Returned (map js_of_row (db w)), w).
Proof.
  unfold stmt_all, bind, lift. cbn [query parameters].
  change (Bind [] []) with (@inr exn bindings []). cbn [ret].
  rewrite select_everything. reflexivity.
Qed.

Lemma holds_by_id sch v r :
  holds sch [(1%nat, v)] [(Cid, Param 1)] r = sql_eq sch Cid (r_id r) v.
Proof. unfold holds. cbn. apply andb_true_r. Qed.

Lemma sql_eq_null sch c a : sql_eq sch c a SNull = false.
Proof. destruct a; reflexivity. Qed.

Lemma get_by_id sch limit id w :
  stmt_get sch (mkStatement (Select [(Cid, Param 1)] limit) [None]) [VNumber id] w
  = (Returned
       (hd_error
          (map js_of_row
             (select_rows sch [(1%nat, bound_id id)] [(Cid, Param 1)] limit (db w)))),
     w).
Proof.
  unfold stmt_get, bind, lift. cbn [query parameters].
  rewrite Bind_one_number. reflexivity.
Qed.

Lemma select_by_id_none sch v limit t :
  (forall r, In r t -> sql_eq sch Cid (r_id r) v = false) ->
  select_rows sch [(1%nat, v)] [(Cid, Param 1)] limit t = [].
Proof.
  intros H. unfold select_rows.
  rewrite filter_none; [destruct limit as [n|]; [apply firstn_nil|reflexivity]|].
  intros r Hr. rewrite holds_by_id. auto.
Qed.

Lemma select_by_id_some sch v limit t r :
  In r t -> sql_eq sch Cid (r_id r) v = true ->
  limit = None \/ limit = Some 1%nat ->
  exists y, hd_error
              (map js_of_row
                 (select_rows sch [(1%nat, v)] [(Cid, Param 1)] limit t))
            = Some y.
Proof.
  intros Hin Heq Hlim. unfold select_rows.
  destruct (filter_some (holds sch [(1%nat, v)] [(Cid, Param 1)]) t r Hin)
    as (y & rest & ->).
  - rewrite holds_by_id. exact Heq.
  - destruct Hlim as [->| ->]; cbn; eauto.
Qed.

(** ** Validation of the id *)

Lemma validateId_NaN sch w :
  validateId sch NaN w = (Returned (invalid_id "Id can only be integer."), w).
Proof. reflexivity. Qed.

Lemma validateId_missing sch n w :
  (forall r, In r (db w) -> sql_eq sch Cid (r_id r) (SInt n) = false) ->
  validateId sch (Num n) w
  = (Returned (invalid_id "Cannot find client with that id."), w).
Proof.
  intros H. unfold validateId, bind. cbn [Number_isNaN].
  rewrite prepare_by_id_limit, get_by_id.
  cbn [bound_id]. rewrite select_by_id_none by exact H. reflexivity.
Qed.

Lemma validateId_found sch n w r :
  In r (db w) -> sql_eq sch Cid (r_id r) (SInt n) = true ->
  validateId sch (Num n) w = (Returned (mkValidation true BUndefined), w).
Proof.
  intros Hin Heq. unfold validateId, bind. cbn [Number_isNaN].
  rewrite prepare_by_id_limit, get_by_id. cbn [bound_id].
  destruct (select_by_id_some sch (SInt n) (Some 1%nat) (db w) r Hin Heq) as [y ->];
    [right; reflexivity|reflexivity].
Qed.

(** [validateId] reads only: it always returns, in the state it started in,
    and an invalid id comes with the message of line 31 or 43. *)
Lemma validateId_returns sch id w :
  exists v,
    validateId sch id w = (Returned v, w)
    /\ (valid v = false -> exists long, v = invalid_id long)
    /\ (valid v = true -> v = mkValidation true BUndefined).
Proof.
  unfold validateId, bind. destruct id as [n|]; cbn [Number_isNaN].
  - rewrite prepare_by_id_limit, get_by_id.
    destruct (hd_error _) as [r|]; cbn [ret]; eexists; (split; [reflexivity|]);
      split; intros H; try discriminate H;
      [reflexivity | eexists; reflexivity].
  - eexists; split; [reflexivity|].
    split; intros H; [eexists; reflexivity | discriminate H].
Qed.

(** ** What later arguments leave bound *)

Lemma BindValue_keeps ps v index bs bs' i :
  BindValue ps v index bs = inr bs' -> i <> index ->
  param_value i bs' = param_value i bs.
Proof.
  unfold BindValue. intros H Hi.
  destruct (sql_of_js v) as [sv|]; [|discriminate H].
  destruct (_ && _); [|discriminate H].
  injection H as <-. cbn [param_value].
  destruct (Nat.eqb_spec index i) as [->|_]; [contradiction|reflexivity].
Qed.

Lemma BindArray_keeps ps items : forall b b' n i,
  BindArray ps items b = inr (b', n) -> (i <= anon_index b)%nat ->
  param_value i (bound b') = param_value i (bound b)
  /\ (anon_index b <= anon_index b')%nat.
Proof.
  induction items as [|x items IH]; intros b b' n i H Hi; cbn [BindArray] in H.
  - injection H as <- _. split; [reflexivity|lia].
  - pose proof (NextAnonIndex_gt ps b) as Hgt.
    destruct (BindValue ps x (NextAnonIndex ps b) (bound b)) as [e|bs] eqn:Hv;
      [discriminate H|].
    destruct (BindArray ps items (mkBinder (NextAnonIndex ps b) bs))
      as [e|[b1 n1]] eqn:Hrest; [discriminate H|].
    injection H as <- _.
    destruct (IH _ _ _ i Hrest) as [Hsame Hle]; [cbn; lia|].
    cbn in Hsame, Hle. split; [|lia].
    rewrite Hsame. eapply BindValue_keeps; [exact Hv|lia].
Qed.

Lemma BindObject_pairs_keeps ps fields pairs : forall bs bs' n i,
  BindObject_pairs ps pairs fields bs = inr (bs', n) ->
  (forall name, ~ In (name, i) pairs) ->
  param_value i bs' = param_value i bs.
Proof.
  induction pairs as [|[name index] pairs IH]; intros bs bs' n i H Hi;
    cbn [BindObject_pairs] in H.
  - injection H as <- _. reflexivity.
  - destruct (get_field name fields) as [v|]; [|discriminate H].
    destruct (BindValue ps v index bs) as [e|bs1] eqn:Hv; [discriminate H|].
    destruct (BindObject_pairs ps pairs fields bs1) as [e|[bs2 n2]] eqn:Hrest;
      [discriminate H|].
    injection H as <- _.
    erewrite IH; [|exact Hrest|].
    + eapply BindValue_keeps; [exact Hv|]. intros ->. apply (Hi name). left. reflexivity.
    + intros name' Hin. apply (Hi name'). right. exact Hin.
Qed.

(** A parameter that carries no name and lies at or below the binder's
    position keeps its value through the rest of the arguments. *)
Lemma Bind_args_keeps ps args : forall b count bo b' count' bo' i,
  Bind_args ps args b count bo = inr (b', count', bo') ->
  (i <= anon_index b)%nat ->
  (forall name, ~ In (name, i) (bind_map ps)) ->
  param_value i (bound b') = param_value i (bound b).
Proof.
  induction args as [|a args IH]; intros b count bo b' count' bo' i H Hi Hname.
  - cbn in H. injection H as <- _ _. reflexivity.
  - pose proof (NextAnonIndex_gt ps b) as Hgt.
    assert (Hscalar :
      forall bs, BindValue ps a (NextAnonIndex ps b) (bound b) = inr bs ->
                 Bind_args ps args (mkBinder (NextAnonIndex ps b) bs) (S count) bo
                 = inr (b', count', bo') ->
                 param_value i (bound b') = param_value i (bound b)).
    { intros bs Hv Hrest.
      rewrite (IH _ _ _ _ _ _ i Hrest); [|cbn; lia|exact Hname].
      cbn. eapply BindValue_keeps; [exact Hv|lia]. }
    destruct a; cbn [Bind_args] in H;
      try (destruct (BindValue ps _ (NextAnonIndex ps b) (bound b)) as [e|bs] eqn:Hv;
           [discriminate H | exact (Hscalar bs eq_refl H)]).
    + destruct (BindArray ps items b) as [e|[b1 n1]] eqn:Ha; [discriminate H|].
      destruct (BindArray_keeps ps items b b1 n1 i Ha Hi) as [Hsame Hle].
      rewrite (IH _ _ _ _ _ _ i H); [exact Hsame|lia|exact Hname].
    + destruct bo; [discriminate H|].
      unfold BindObject in H.
      destruct (BindObject_pairs ps (bind_map ps) fields (bound b))
        as [e|[bs1 n1]] eqn:Ho; [discriminate H|].
      rewrite (IH _ _ _ _ _ _ i H); [|cbn; lia|exact Hname].
      cbn. eapply BindObject_pairs_keeps; [exact Ho|exact Hname].
Qed.

(** The first of the five values of line 200 is the client's id, a number:
    when the arguments bind at all, the id column of the new row is that
    number, whatever [status] spreads into. *)
Lemma Bind_insert_id n rest bs :
  Bind [None; None; None; None; None] (VNumber (Num n) :: rest) = inr bs ->
  param_value 1 bs = SInt n.
Proof.
  unfold Bind. 
  change (Bind_args [None; None; None; None; None] (VNumber (Num n) :: rest)
            (mkBinder 0 []) 0 false)
    with (Bind_args [None; None; None; None; None] rest
            (mkBinder 1 [(1%nat, SInt n)]) 1 false).
  destruct (Bind_args _ rest _ _ _) as [e|[[b c] bo]] eqn:H; [discriminate|].
  intros Hb.
  assert (bs = bound b) as ->.
  { destruct (_ =? _)%nat; [congruence|].
    destruct (_ <? _)%nat; [destruct (_ && _)|]; discriminate Hb. }
  rewrite (Bind_args_keeps _ _ _ _ _ _ _ _ 1%nat H); [reflexivity|cbn; lia|].
  intros name Hin. exact Hin.
Qed.

(** ** The complete branch of [PUT] *)

Lemma complete_swimlane sch w :
  stmt_all sch (mkStatement (Select [(Cstatus, Lit (SText "complete"))] None) []) [] w
  = (Returned
       (map js_of_row
          (select_rows sch [] [(Cstatus, Lit (SText "complete"))] None (db w))),
     w).
Proof.
  unfold stmt_all, bind, lift. cbn [query parameters].
  change (Bind [] []) with (@inr exn bindings []). reflexivity.
Qed.

(** [newLowestPriority] reads only. *)
Lemma newLowestPriority_reads sch w :
  exists o, newLowestPriority sch w = (o, w).
Proof.
  unfold newLowestPriority, bind. rewrite prepare_complete, complete_swimlane.
  destruct (last_item _) as [c|]; [|eexists; reflexivity].
  unfold lift. destruct (plus_one _); eexists; reflexivity.
Qed.

(** With no complete row there is no last element to read the priority of. *)
Lemma newLowestPriority_empty sch w :
  select_rows sch [] [(Cstatus, Lit (SText "complete"))] None (db w) = [] ->
  newLowestPriority sch w = (Thrown undefined_priority, w).
Proof.
  intros H. unfold newLowestPriority, bind.
  rewrite prepare_complete, complete_swimlane, H. reflexivity.
Qed.

Lemma find_from_in {A : Type} (p : A -> bool) (l : list A) : forall i j x,
  find_from p l i = Some (j, x) -> In x l /\ p x = true.
Proof.
  induction l as [|y l IH]; intros i j x H; cbn in H; [discriminate H|].
  destruct (p y) eqn:Hy.
  - injection H as _ <-. split; [left; reflexivity|exact Hy].
  - destruct (IH _ _ _ H) as [Hin Hp]. split; [right; exact Hin|exact Hp].
Qed.

(** The client found by line 150 is a row of the table whose id is the
    number in the route. *)
Lemma found_client_row id t i c :
  find_from (fun c => strict_eq_num (j_id c) id) (map js_of_row t) 0 = Some (i, c) ->
  exists n r, id = Num n /\ j_id c = VNumber (Num n) /\ In r t /\ r_id r = SInt n.
Proof.
  intros H. destruct (find_from_in _ _ _ _ _ H) as [Hin Hp].
  apply in_map_iff in Hin. destruct Hin as (r & <- & Hr).
  cbn in Hp. destruct (r_id r) as [|z|s] eqn:Hid; cbn in Hp; try discriminate Hp.
  destruct id as [n|]; cbn in Hp; [|discriminate Hp].
  apply Z.eqb_eq in Hp. subst z.
  exists n, r. cbn. rewrite Hid. auto.
Qed.

Lemma insert_row_keyed sch r t r' :
  primary_key sch = true -> In r' t -> same_key (r_id r') (r_id r) = true ->
  insert_row sch r t = inl (SqliteError "UNIQUE constraint failed: clients.id").
Proof.
  intros Hk Hin Hsame. unfold insert_row. rewrite Hk. cbn [andb].
  replace (existsb _ t) with true; [reflexivity|].
  symmetry. apply existsb_exists. exists r'. auto.
Qed.

(** On a table that enforces its primary key the branch of lines 196-206
    always ends in an exception and writes nothing: the lane is empty, or the
    client is undefined, or the values do not bind, or the [INSERT] of line
    199 repeats the id of the row the client was read from. *)
Lemma mark_complete_keyed sch w i_c status j :
  primary_key sch = true ->
  (forall i c, i_c = Some (i, c) ->
     exists n r, j_id c = VNumber (Num n) /\ In r (db w) /\ r_id r = SInt n) ->
  exists e, mark_complete sch j i_c status w = (Thrown e, w).
Proof.
  intros Hk Hc. unfold mark_complete, bind.
  destruct (newLowestPriority_reads sch w) as [[p1|e1] H1]; rewrite H1;
    [|eexists; reflexivity].
  rewrite H1. destruct i_c as [[i c]|]; [|eexists; reflexivity].
  destruct (Hc i c eq_refl) as (n & r & Hid & Hin & Hr).
  rewrite prepare_insert. unfold stmt_run, bind, lift. cbn [query parameters j_id].
  rewrite Hid.
  destruct (Bind _ _) as [e|bs] eqn:Hb; [eexists; reflexivity|].
  cbn [ret]. apply Bind_insert_id in Hb.
  erewrite insert_row_keyed; [eexists; reflexivity|exact Hk|exact Hin|].
  cbn [r_id eval_operand]. rewrite Hb, Hr. cbn. apply Z.eqb_refl.
Qed.

(** ** The update code as a whole *)

Lemma priority_supplied priority :
  is_defined priority = true -> Number_isNaN priority = false ->
  valid (validatePriority priority) && is_defined priority = true.
Proof. intros Hd Hn. unfold validatePriority. rewrite Hn, Hd. reflexivity. Qed.

Lemma update_code_priority sch id status priority clients client w :
  is_defined priority = true -> Number_isNaN priority = false ->
  exists e, update_code sch id status priority clients client w = (Thrown e, w).
Proof.
  intros Hd Hn. unfold update_code, bind.
  rewrite (priority_supplied priority Hd Hn).
  destruct (reorder_clients_throws sch id status priority w) as [e ->].
  exists e. reflexivity.
Qed.

Lemma update_code_passthrough sch id status priority clients client w :
  valid (validatePriority priority) && is_defined priority = false ->
  loose_eq_complete status = inr false ->
  update_code sch id status priority clients client w = (Returned clients, w).
Proof.
  intros Hp Hs. unfold update_code, bind. rewrite Hp, Hs. reflexivity.
Qed.

(** On a keyed table the update code never writes, and when it returns it
    returns the array it was given. *)
Lemma update_code_keyed sch id status priority clients client w :
  primary_key sch = true ->
  (forall i c, client = Some (i, c) ->
     exists n r, j_id c = VNumber (Num n) /\ In r (db w) /\ r_id r = SInt n) ->
  update_code sch id status priority clients client w = (Returned clients, w)
  \/ exists e, update_code sch id status priority clients client w = (Thrown e, w).
Proof.
  intros Hk Hc. unfold update_code, bind.
  destruct (valid (validatePriority priority) && is_defined priority).
  - right. destruct (reorder_clients_throws sch id status priority w) as [e ->].
    exists e. reflexivity.
  - destruct (loose_eq_complete status) as [e|[|]]; cbn [lift throw ret].
    + right. exists e. reflexivity.
    + right. apply mark_complete_keyed; assumption.
    + left. reflexivity.
Qed.

(** ** The [PUT] handler *)

Lemma put_client_prefix sch id_param status priority t v :
  validateId sch (parseInt id_param) (mkWorld t []) = (Returned v, mkWorld t []) ->
  serve (put_client sch id_param status priority) t
  = bind (update_code sch (parseInt id_param) status priority (map js_of_row t)
            (find_from (fun c => strict_eq_num (j_id c) (parseInt id_param))
               (map js_of_row t) 0))
      (fun clients' => send 200 (BRows clients'))
      (mkWorld t (if valid v then [] else [(400, messageObj v)])).
Proof.
  intros Hv. unfold serve, put_client.
  unfold bind at 1. rewrite Hv.
  unfold bind at 1.
  destruct (valid v); cbn [negb ret send sends db app];
    unfold bind at 1; rewrite prepare_all;
    unfold bind at 1; rewrite all_clients; reflexivity.
Qed.

(** What a [PUT] does to a keyed table: nothing.  Either it returns after
    sending the rows as they are, or it throws having sent nothing or the 400
    of a bad id; the last case is the 200 refused after that 400. *)
Lemma put_client_keyed sch id_param status priority t :
  primary_key sch = true ->
  serve (put_client sch id_param status priority) t
  = (Returned tt, mkWorld t [(200, BRows (map js_of_row t))])
  \/ (exists e, serve (put_client sch id_param status priority) t
                = (Thrown e, mkWorld t []))
  \/ (exists e long,
        serve (put_client sch id_param status priority) t
        = (Thrown e, mkWorld t [(400, BMessage "Invalid id provided." long)]))
  \/ (exists long,
        serve (put_client sch id_param status priority) t
        = (Thrown (HttpError "ERR_HTTP_HEADERS_SENT"),
           mkWorld t [(400, BMessage "Invalid id provided." long);
                      (200, BRows (map js_of_row t))])).
Proof.
  intros Hk.
  destruct (validateId_returns sch (parseInt id_param) (mkWorld t []))
    as (v & Hv & Hbad & Hgood).
  rewrite (put_client_prefix sch id_param status priority t v Hv).
  set (w1 := mkWorld t (if valid v then [] else [(400, messageObj v)])).
  assert (Hlink : forall i c,
    find_from (fun c => strict_eq_num (j_id c) (parseInt id_param))
      (map js_of_row t) 0 = Some (i, c) ->
    exists n r, j_id c = VNumber (Num n) /\ In r (db w1) /\ r_id r = SInt n).
  { intros i c H. destruct (found_client_row _ _ _ _ H) as (n & r & _ & H1 & H2 & H3).
    exists n, r. auto. }
  unfold bind.
  destruct (update_code_keyed sch (parseInt id_param) status priority
              (map js_of_row t) _ w1 Hk Hlink) as [-> | [e ->]];
    subst w1; destruct (valid v) eqn:Hval.
  - left. reflexivity.
  - destruct (Hbad eq_refl) as [long ->].
    right. right. right. exists long. reflexivity.
  - right. left. exists e. reflexivity.
  - destruct (Hbad eq_refl) as [long ->].
    right. right. left. exists e, long. reflexivity.
Qed.



(** ** What [dense] says *)

Lemma occurrences_in p vs :
  occurrences p vs = 1%nat -> In (SInt p) vs.
Proof.
  unfold occurrences. intros H.
  destruct (filter (is_priority p) vs) as [|v rest] eqn:Hf; [discriminate H|].
  assert (Hin : In v (filter (is_priority p) vs)) by (rewrite Hf; left; reflexivity).
  apply filter_In in Hin. destruct Hin as [Hin Hp].
  destruct v as [|z|s]; cbn in Hp; try discriminate Hp.
  apply Z.eqb_eq in Hp. subst z. exact Hin.
Qed.

Lemma occurrences_permutation p vs vs' :
  Permutation vs vs' -> occurrences p vs = occurrences p vs'.
Proof.
  unfold occurrences. induction 1 as [|x l l' _ IH|x y l|l l' l'' _ IH1 _ IH2];
    cbn [filter].
  - reflexivity.
  - destruct (is_priority p x); cbn [List.length]; congruence.
  - destruct (is_priority p x), (is_priority p y); reflexivity.
  - congruence.
Qed.

Lemma lane_targets_NoDup n : NoDup (lane_targets n).
Proof.
  unfold lane_targets. apply Injective_map_NoDup; [|apply seq_NoDup].
  intros a b H. injection H as H. lia.
Qed.

Lemma occurrences_NoDup p vs :
  NoDup vs -> In (SInt p) vs -> occurrences p vs = 1%nat.
Proof.
  unfold occurrences. induction 1 as [|v vs Hv Hnd IH]; intros Hin; [destruct Hin|].
  cbn [filter]. destruct (is_priority p v) eqn:Hp.
  - destruct v as [|z|s]; cbn in Hp; try discriminate Hp.
    apply Z.eqb_eq in Hp. subst z. cbn [List.length]. f_equal.
    rewrite filter_none; [reflexivity|].
    intros x Hx. destruct x as [|z|s]; cbn; try reflexivity.
    destruct (Z.eqb_spec z p) as [->|]; [contradiction|reflexivity].
  - destruct Hin as [->|Hin]; [|exact (IH Hin)].
    cbn in Hp. rewrite Z.eqb_refl in Hp. discriminate Hp.
Qed.

(** [dense] holds exactly when the priorities of the lane are a rearrangement
    of 1, 2, ..., n for the n rows of the lane. *)
Lemma dense_permutation lane t :
  dense lane t = true
  <-> Permutation (lane_targets (List.length (lane_priorities lane t)))
        (lane_priorities lane t).
Proof.
  unfold dense. set (ps := lane_priorities lane t). split.
  - intros H. apply NoDup_Permutation_bis.
    + apply lane_targets_NoDup.
    + unfold lane_targets. rewrite length_map, length_seq. apply le_n.
    + intros v Hv. unfold lane_targets in Hv. apply in_map_iff in Hv.
      destruct Hv as (k & <- & Hk).
      apply occurrences_in.
      rewrite forallb_forall in H. specialize (H k Hk).
      apply Nat.eqb_eq in H. exact H.
  - intros H. apply forallb_forall. intros k Hk. apply Nat.eqb_eq.
    rewrite <- (occurrences_permutation _ _ _ H).
    apply occurrences_NoDup; [apply lane_targets_NoDup|].
    unfold lane_targets. apply in_map_iff. exists k. auto.
Qed.

(** ** A bad id *)






(** The sibling route does check the status: [GET /api/v1/clients?status=done]
    is answered with the 400 of line 85, on any table. *)
Lemma get_clients_rejects_bad_status sch t :
  serve (get_clients sch (VStr "done")) t
  = (Returned tt,
     mkWorld t
       [(400,
         BMessage "Invalid status provided."
           "Status can only be one of the following: [backlog | in-progress | complete].")]).
Proof. reflexivity. Qed.

(** ** An empty complete lane *)

(** X14.  Whatever the schema and the id, marking a card complete while no
    row is complete throws on line 216, before anything is written. *)
Lemma empty_lane_throws sch id_param status t :
  loose_eq_complete status = inr true ->
  select_rows sch [] [(Cstatus, Lit (SText "complete"))] None t = [] ->
  exists w,
    serve (put_client sch id_param status VUndef) t = (Thrown undefined_priority, w)
    /\ db w = t.
Proof.
  intros Hs Hempty.
  destruct (validateId_returns sch (parseInt id_param) (mkWorld t []))
    as (v & Hv & _ & _).
  rewrite (put_client_prefix sch id_param status VUndef t v Hv).
  unfold bind, update_code, bind. cbn [validatePriority Number_isNaN valid is_defined andb].
  rewrite Hs. cbn [lift ret]. unfold mark_complete, bind.
  rewrite newLowestPriority_empty by exact Hempty.
  eexists. split; reflexivity.
Qed.

Lemma empty_lane_throws_witness :
  loose_eq_complete (VStr "complete") = inr true
  /\ select_rows unkeyed [] [(Cstatus, Lit (SText "complete"))] None none_complete = []
  /\ exists w,
       serve (put_client unkeyed "2" (VStr "complete") VUndef) none_complete
       = (Thrown undefined_priority, w)
       /\ db w = none_complete.
Proof.
  split; [reflexivity|]. split; [reflexivity|].
  apply empty_lane_throws; reflexivity.
Defined.

(** ** Marking complete, with and without the key *)

(** The example of the spec, a complete lane whose highest priority is 5: on
    the keyed table the [INSERT] throws and card 1 stays in the backlog at
    priority 1. *)
Lemma keyed_mark_complete_throws :
  serve_put keyed (mkPut "1" (VStr "complete") VUndef) five_complete
  = (Thrown (SqliteError "UNIQUE constraint failed: clients.id"),
     mkWorld five_complete []).
Proof. reflexivity. Qed.

(** Without the primary key the [INSERT] of line 199 goes through: card 1
    stays in the backlog at priority 1, a second row with id 1 is added to
    the complete lane, and the response is the array read on line 149 with
    the one element assigned on lines 197 and 198. *)
Lemma unkeyed_mark_complete_inserts :
  serve_put unkeyed (mkPut "1" (VStr "complete") VUndef) five_complete
  = (Returned tt,
     mkWorld (five_complete ++ [client_row 1 "complete" 6])%list
       [(200,
         BRows (js_of_row (client_row 1 "complete" 6)
                  :: map js_of_row (tl five_complete)))]).
Proof. reflexivity. Qed.

(** Without the key a dense complete lane can stop being dense: the row
    added gets a priority the lane already has. *)
Lemma unkeyed_breaks_density :
  dense "complete" unordered_complete = true
  /\ dense "complete"
       (serve_puts unkeyed [mkPut "1" (VStr "complete") VUndef] unordered_complete)
     = false.
Proof. split; reflexivity. Qed.

(** ** The claims about [PUT /api/v1/clients/:id] *)



(** C2.  On the board with backlog priorities 1, 2, 3, moving the card at 3
    to priority 2 throws and leaves every row where it was, with the status
    left out as in the claim's example or given as the backlog: in both
    cases the first value passed on line 162 finds no anonymous parameter
    to go to.  This holds for every schema. *)
Theorem conflict_insertion_throws sch :
  serve_put sch (mkPut "3" VUndef (VNumber (Num 2))) board
  = (Thrown (RangeError "Too many parameter values were provided"),
     mkWorld board [])
  /\ serve_put sch (mkPut "3" (VStr "backlog") (VNumber (Num 2))) board
     = (Thrown (RangeError "Too many parameter values were provided"),
        mkWorld board []).
Proof. split; reflexivity. Qed.

(** C3.  The complete lane of [unordered_complete] has the priorities 2 and
    1, in that scan order, so its maximum is 2.  Marking card 1 complete
    gives no record the priority 3: on the keyed table the [INSERT] throws
    and card 1 stays in the backlog; without the key card 1 still stays, and
    the row added for it gets 1 + 1, one more than the row scanned last. *)
Theorem mark_complete_misses_maximum :
  serve_put keyed (mkPut "1" (VStr "complete") VUndef) unordered_complete
  = (Thrown (SqliteError "UNIQUE constraint failed: clients.id"),
     mkWorld unordered_complete [])
  /\ db (snd (serve_put unkeyed (mkPut "1" (VStr "complete") VUndef)
                unordered_complete))
     = (unordered_complete ++ [client_row 1 "complete" 2])%list.
Proof. split; reflexivity. Qed.



(** C5.  With no complete row, marking card 1 complete throws the TypeError
    of reading [priority] of [undefined]; no error of the handler's own
    making is sent, and the table is untouched. *)
Theorem empty_lane_crashes sch :
  serve_put sch (mkPut "1" (VStr "complete") VUndef) none_complete
  = (Thrown undefined_priority, mkWorld none_complete []).
Proof. reflexivity. Qed.

(** C6.  A status that names no lane is accepted with a 200 and the list of
    clients, and the priority -1 passes [validatePriority] and ends in the
    binder's exception, not in the handler's message for a bad priority. *)
Theorem bad_status_and_priority_pass sch :
  serve_put sch (mkPut "1" (VStr "done") VUndef) board
  = (Returned tt, mkWorld board [(200, BRows (map js_of_row board))])
  /\ valid (validatePriority (VNumber (Num (-1)))) = true
  /\ serve_put sch (mkPut "1" (VStr "backlog") (VNumber (Num (-1)))) board
     = (Thrown (RangeError "Too many parameter values were provided"),
        mkWorld board []).
Proof. repeat split; reflexivity. Qed.

(** On a table that enforces its primary key a [PUT] returns only when it
    has written nothing: the one response is then the 200 with the rows of
    the table, which is the table it started with. *)
Lemma keyed_put_returns_unwritten_table sch r t w :
  primary_key sch = true ->
  serve_put sch r t = (Returned tt, w) ->
  db w = t /\ sends w = [(200, BRows (map js_of_row t))].
Proof.
  intros Hk H. unfold serve_put in H.
  destruct (put_client_keyed sch (put_id r) (put_status r) (put_priority r) t Hk)
    as [E | [[e E] | [(e & long & E) | [long E]]]];
    rewrite E in H; try discriminate H.
  injection H as <-. split; reflexivity.
Qed.

(** C8.  A [PUT] with neither status nor priority for the id of a row returns
    after sending the rows, and the table is the one it started with. *)
Theorem put_nothing_is_noop sch id_param n r t :
  parseInt id_param = Num n -> In r t -> r_id r = SInt n ->
  serve (put_client sch id_param VUndef VUndef) t
  = (Returned tt, mkWorld t [(200, BRows (map js_of_row t))]).
Proof.
  intros Hid Hin Hr.
  assert (Hv : validateId sch (parseInt id_param) (mkWorld t [])
               = (Returned (mkValidation true BUndefined), mkWorld t [])).
  { rewrite Hid. apply (validateId_found sch n (mkWorld t []) r Hin).
    rewrite Hr. cbn. apply Z.eqb_refl. }
  rewrite (put_client_prefix sch id_param VUndef VUndef t _ Hv).
  unfold bind. rewrite update_code_passthrough; reflexivity.
Qed.

Lemma put_nothing_is_noop_witness :
  parseInt "2" = Num 2 /\ In (client_row 2 "backlog" 2) board
  /\ r_id (client_row 2 "backlog" 2) = SInt 2
  /\ serve (put_client keyed "2" VUndef VUndef) board
  = (Returned tt, mkWorld board [(200, BRows (map js_of_row board))]).
Proof.
  assert (Hin : In (client_row 2 "backlog" 2) board) by (right; left; reflexivity).
  split; [reflexivity|]. split; [exact Hin|]. split; [reflexivity|].
  apply (put_nothing_is_noop keyed "2" 2 (client_row 2 "backlog" 2) board);
    [reflexivity | exact Hin | reflexivity].
Defined.

(** C9.  Whatever the schema, the id and the status, a [PUT] whose priority
    is defined and not NaN ends in an exception with the table as it was and
    without any 200 among the responses. *)
Theorem put_priority_raises sch id_param status priority t :
  is_defined priority = true -> Number_isNaN priority = false ->
  exists e w,
    serve (put_client sch id_param status priority) t = (Thrown e, w)
    /\ db w = t
    /\ forall b, ~ In (200, b) (sends w).
Proof.
  intros Hd Hn.
  destruct (validateId_returns sch (parseInt id_param) (mkWorld t []))
    as (v & Hv & Hbad & _).
  rewrite (put_client_prefix sch id_param status priority t v Hv).
  unfold bind.
  destruct (update_code_priority sch (parseInt id_param) status priority
              (map js_of_row t)
              (find_from (fun c => strict_eq_num (j_id c) (parseInt id_param))
                 (map js_of_row t) 0)
              (mkWorld t (if valid v then [] else [(400, messageObj v)])) Hd Hn)
    as [e ->].
  eexists _, _. split; [reflexivity|]. split; [reflexivity|].
  intros b Hin. cbn [sends] in Hin. destruct (valid v).
  - destruct Hin.
  - destruct Hin as [Hin|[]]. discriminate Hin.
Qed.

Lemma put_priority_raises_witness :
  is_defined (VArr []) = true /\ Number_isNaN (VArr []) = false
  /\ exists e w,
    serve (put_client keyed "3"
             (VObj [("status", VStr "backlog"); ("priority", VNumber (Num 9))])
             (VArr [])) board
    = (Thrown e, w)
    /\ db w = board
    /\ forall b, ~ In (200, b) (sends w).
Proof.
  split; [reflexivity|]. split; [reflexivity|].
  apply put_priority_raises; reflexivity.
Defined.

(** ** The claim about [GET /api/v1/clients/:id] *)

Lemma validateId_invalid_requery sch id w v :
  validateId sch id w = (Returned v, w) -> valid v = false ->
  select_rows sch [(1%nat, bound_id id)] [(Cid, Param 1)] None (db w) = [].
Proof.
  intros Hv Hbad. destruct id as [n|].
  - unfold validateId, bind in Hv. cbn [Number_isNaN] in Hv.
    rewrite prepare_by_id_limit, get_by_id in Hv.
    unfold select_rows in *. cbn [bound_id] in *.
    destruct (filter _ (db w)) as [|r rest]; [reflexivity|].
    cbn in Hv. injection Hv as <-. discriminate Hbad.
  - apply select_by_id_none. intros r _. apply sql_eq_null.
Qed.

(** C10.  When [validateId] rejects the id of a [GET], the handler sends the
    400 with the validation message and goes on to line 111: it queries the
    id again, finds nothing, and calls [send] a second time with status 200
    and [undefined].  The table is not touched. *)
Theorem get_client_bad_id sch id_param t v :
  validateId sch (parseInt id_param) (mkWorld t []) = (Returned v, mkWorld t []) ->
  valid v = false ->
  sends (snd (serve (get_client sch id_param) t))
  = [(400, messageObj v); (200, BUndefined)]
  /\ db (snd (serve (get_client sch id_param) t)) = t.
Proof.
  intros Hv Hbad.
  assert (E : serve (get_client sch id_param) t
              = (Returned tt, mkWorld t [(400, messageObj v); (200, BUndefined)])).
  { unfold serve, get_client.
    unfold bind at 1. rewrite Hv.
    unfold bind at 1. rewrite Hbad. cbn [negb send sends db app].
    unfold bind at 1. rewrite prepare_by_id.
    unfold bind. rewrite get_by_id. cbn [db].
    pose proof (validateId_invalid_requery sch (parseInt id_param) (mkWorld t []) v
                  Hv Hbad) as Hq.
    cbn [db] in Hq. rewrite Hq. reflexivity. }
  rewrite E. split; reflexivity.
Qed.

Lemma get_client_bad_id_witness :
  validateId keyed (parseInt "99") (mkWorld board [])
  = (Returned (invalid_id "Cannot find client with that id."), mkWorld board [])
  /\ valid (invalid_id "Cannot find client with that id.") = false
  /\ sends (snd (serve (get_client keyed "99") board))
     = [(400, messageObj (invalid_id "Cannot find client with that id."));
        (200, BUndefined)]
  /\ db (snd (serve (get_client keyed "99") board)) = board.
Proof.
  split; [reflexivity|]. split; [reflexivity|].
  apply get_client_bad_id; reflexivity.
Defined.

(** * Further properties of the handlers *)

(** ** What any [PUT] can do to the table and to the response *)

Lemma newLowestPriority_state sch w o w' :
  newLowestPriority sch w = (o, w') -> w' = w.
Proof.
  intros H. destruct (newLowestPriority_reads sch w) as [o' H'].
  rewrite H' in H. injection H as _ <-. reflexivity.
Qed.

(** The branch of lines 196-206 leaves the response alone, and either leaves
    the table alone or adds one row at its end. *)
Lemma mark_complete_effect sch clients client status w :
  exists o w',
    mark_complete sch clients client status w = (o, w')
    /\ sends w' = sends w
    /\ (db w' = db w \/ exists r, db w' = (db w ++ [r])%list).
Proof.
  unfold mark_complete, bind.
  destruct (newLowestPriority_reads sch w) as [[p|e] H]; rewrite H;
    [rewrite H | eexists _, _; split; [reflexivity|]; split; [reflexivity|left; reflexivity]].
  destruct client as [[i c]|];
    [|eexists _, _; split; [reflexivity|]; split; [reflexivity|left; reflexivity]].
  rewrite prepare_insert. unfold stmt_run, bind, lift. cbn [query parameters].
  destruct (Bind _ _) as [e|bs];
    [eexists _, _; split; [reflexivity|]; split; [reflexivity|left; reflexivity]|].
  cbn [ret]. unfold insert_row.
  destruct (primary_key sch && existsb _ (db w));
    eexists _, _; (split; [reflexivity|]); (split; [reflexivity|]).
  - left. reflexivity.
  - right. eexists. reflexivity.
Qed.

Lemma update_code_effect sch id status priority clients client w :
  exists o w',
    update_code sch id status priority clients client w = (o, w')
    /\ sends w' = sends w
    /\ (db w' = db w \/ exists r, db w' = (db w ++ [r])%list).
Proof.
  unfold update_code, bind.
  destruct (valid (validatePriority priority) && is_defined priority).
  - destruct (reorder_clients_throws sch id status priority w) as [e ->].
    eexists _, _. split; [reflexivity|]. split; [reflexivity|left; reflexivity].
  - destruct (loose_eq_complete status) as [e|[|]]; cbn [lift throw ret].
    + eexists _, _. split; [reflexivity|]. split; [reflexivity|left; reflexivity].
    + apply mark_complete_effect.
    + eexists _, _. split; [reflexivity|]. split; [reflexivity|left; reflexivity].
Qed.

(** Every run of the [PUT] handler, for any schema: the validation, then the
    update code on the state the validation left, then line 208 if the update
    code returned. *)
Lemma put_client_run sch id_param status priority t :
  exists v o w',
    (valid v = false -> exists long, v = invalid_id long)
    /\ sends w' = (if valid v then [] else [(400, messageObj v)])
    /\ (db w' = t \/ exists r, db w' = (t ++ [r])%list)
    /\ serve (put_client sch id_param status priority) t
       = match o with
         | Returned clients' => send 200 (BRows clients') w'
         | Thrown e => (Thrown e, w')
         end.
Proof.
  destruct (validateId_returns sch (parseInt id_param) (mkWorld t []))
    as (v & Hv & Hbad & _).
  rewrite (put_client_prefix sch id_param status priority t v Hv).
  destruct (update_code_effect sch (parseInt id_param) status priority
              (map js_of_row t)
              (find_from (fun c => strict_eq_num (j_id c) (parseInt id_param))
                 (map js_of_row t) 0)
              (mkWorld t (if valid v then [] else [(400, messageObj v)])))
    as (o & w' & Hu & Hs & Hd).
  exists v, o, w'. split; [exact Hbad|]. split; [exact Hs|]. split; [exact Hd|].
  unfold bind. rewrite Hu. destruct o; reflexivity.
Qed.

Lemma send_effect code b w :
  exists o, send code b w = (o, mkWorld (db w) (sends w ++ [(code, b)])%list).
Proof.
  unfold send. destruct (sends w); [|destruct b]; eexists; reflexivity.
Qed.

(** X1.  For every schema, after any sequence of [PUT] requests the table
    starts with the rows it had, unchanged and in their order, and has at
    most one more row per request. *)
Theorem puts_only_append sch rs : forall t,
  exists more,
    serve_puts sch rs t = (t ++ more)%list
    /\ (List.length more <= List.length rs)%nat.
Proof.
  unfold serve_puts.
  induction rs as [|r rs IH]; intros t; cbn [fold_left].
  - exists []. split; [symmetry; apply app_nil_r|apply le_n].
  - assert (Hstep : exists one, db (snd (serve_put sch r t)) = (t ++ one)%list
                                /\ (List.length one <= 1)%nat).
    { unfold serve_put.
      destruct (put_client_run sch (put_id r) (put_status r) (put_priority r) t)
        as (v & o & w' & _ & _ & Hd & ->).
      assert (Hw : exists one, db w' = (t ++ one)%list /\ (List.length one <= 1)%nat).
      { destruct Hd as [-> | [x ->]].
        - exists []. split; [symmetry; apply app_nil_r|cbn; lia].
        - exists [x]. split; [reflexivity|cbn; lia]. }
      destruct o as [cs|e]; [|exact Hw].
      destruct (send_effect 200 (BRows cs) w') as [o ->]. exact Hw. }
    destruct Hstep as (one & -> & Hone).
    destruct (IH (t ++ one)%list) as (more & -> & Hmore).
    exists (one ++ more)%list. split; [symmetry; apply app_assoc|].
    rewrite length_app. cbn [List.length]. lia.
Qed.

(** X2.  For every schema and request, each call of [send] a [PUT] makes is
    the 400 of a rejected id or a 200 carrying an array of clients: the
    handler has no answer of its own for a bad status or a bad priority. *)
Theorem put_only_sends_id_error_or_clients sch r t code b :
  In (code, b) (sends (snd (serve_put sch r t))) ->
  (code = 400 /\ exists long, b = BMessage "Invalid id provided." long)
  \/ (code = 200 /\ exists clients, b = BRows clients).
Proof.
  unfold serve_put.
  destruct (put_client_run sch (put_id r) (put_status r) (put_priority r) t)
    as (v & o & w' & Hbad & Hs & _ & ->).
  assert (Hfirst : forall code b, In (code, b) (sends w') ->
            code = 400 /\ exists long, b = BMessage "Invalid id provided." long).
  { intros c0 b0 Hin. rewrite Hs in Hin. destruct (valid v) eqn:Hv; [destruct Hin|].
    destruct (Hbad eq_refl) as [long ->].
    destruct Hin as [Hin|[]]. injection Hin as <- <-. split; [reflexivity|].
    exists long. reflexivity. }
  destruct o as [cs|e]; cbn [snd].
  - destruct (send_effect 200 (BRows cs) w') as [o ->]. cbn [snd sends].
    intros Hin. apply in_app_or in Hin. destruct Hin as [Hin|[Hin|[]]].
    + left. apply Hfirst. exact Hin.
    + injection Hin as <- <-. right. split; [reflexivity|]. exists cs. reflexivity.
  - intros Hin. left. apply Hfirst. exact Hin.
Qed.

Lemma put_only_sends_id_error_or_clients_witness :
  In (200, BRows (map js_of_row board))
    (sends (snd (serve_put unkeyed (mkPut "2" VUndef VUndef) board)))
  /\ ((200 = 400
       /\ exists long, BRows (map js_of_row board) = BMessage "Invalid id provided." long)
      \/ (200 = 200 /\ exists clients, BRows (map js_of_row board) = BRows clients)).
Proof.
  assert (Hin : In (200, BRows (map js_of_row board))
                  (sends (snd (serve_put unkeyed (mkPut "2" VUndef VUndef) board))))
    by (left; reflexivity).
  split; [exact Hin|].
  exact (put_only_sends_id_error_or_clients unkeyed (mkPut "2" VUndef VUndef) board
           200 (BRows (map js_of_row board)) Hin).
Defined.

(** ** Reading one client *)

Lemma sql_of_js_of_sql v : sql_of_js (js_of_sql v) = Some v.
Proof. destruct v; reflexivity. Qed.

Lemma existsb_filter {A : Type} (p : A -> bool) (l : list A) :
  existsb p l = negb (match filter p l with [] => true | _ => false end).
Proof.
  induction l as [|x l IH]; cbn; [reflexivity|].
  destruct (p x); [reflexivity|exact IH].
Qed.

(** X3.  [validateId] never throws and never changes the table or the
    response; it accepts an id exactly when some row of the table has it
    (and so never accepts NaN, which is bound as NULL). *)
Theorem validateId_accepts_stored_ids sch id w :
  exists v,
    validateId sch id w = (Returned v, w)
    /\ valid v = existsb (fun r => sql_eq sch Cid (r_id r) (bound_id id)) (db w).
Proof.
  unfold validateId, bind. destruct id as [n|]; cbn [Number_isNaN bound_id].
  - rewrite prepare_by_id_limit, get_by_id. cbn [bound_id].
    rewrite existsb_filter.
    rewrite (filter_ext _ _ (fun r => eq_sym (holds_by_id sch (SInt n) r))).
    unfold select_rows.
    destruct (filter _ (db w)) as [|r rest]; cbn; eexists; split; reflexivity.
  - eexists. split; [reflexivity|].
    symmetry. rewrite existsb_filter, filter_none; [reflexivity|].
    intros r _. apply sql_eq_null.
Qed.

Lemma hd_filter_unique {A : Type} (p : A -> bool) (l : list A) (x : A) :
  In x l -> p x = true -> (forall y, In y l -> p y = true -> y = x) ->
  hd_error (filter p l) = Some x.
Proof.
  intros Hin Hp Huniq.
  destruct (filter_some p l x Hin Hp) as (y & rest & Hf). rewrite Hf. cbn.
  assert (Hy : In y (filter p l)) by (rewrite Hf; left; reflexivity).
  apply filter_In in Hy. destruct Hy as [Hy1 Hy2].
  rewrite (Huniq y Hy1 Hy2). reflexivity.
Qed.

(** X4.  [GET /api/v1/clients/:id] for the id of exactly one row returns
    after a single 200 whose body is that row, and leaves the table as it
    was. *)
Theorem get_client_returns_the_row sch id_param n r t :
  parseInt id_param = Num n ->
  In r t -> r_id r = SInt n ->
  (forall r', In r' t -> sql_eq sch Cid (r_id r') (SInt n) = true -> r' = r) ->
  serve (get_client sch id_param) t
  = (Returned tt, mkWorld t [(200, BRow (js_of_row r))]).
Proof.
  intros Hid Hin Hr Huniq.
  assert (Hmatch : sql_eq sch Cid (r_id r) (SInt n) = true)
    by (rewrite Hr; cbn; apply Z.eqb_refl).
  unfold serve, get_client. rewrite Hid.
  unfold bind at 1.
  rewrite (validateId_found sch n (mkWorld t []) r Hin Hmatch).
  unfold bind at 1. cbn [valid negb ret].
  unfold bind at 1. rewrite prepare_by_id.
  unfold bind. rewrite get_by_id. cbn [db bound_id].
  unfold select_rows.
  rewrite (filter_ext _ _ (holds_by_id sch (SInt n))).
  pose proof (hd_filter_unique (fun r' => sql_eq sch Cid (r_id r') (SInt n)) t r
                Hin Hmatch Huniq) as Hhd.
  destruct (filter _ t) as [|y rest]; [discriminate Hhd|].
  cbn in Hhd. injection Hhd as ->. reflexivity.
Qed.

Lemma get_client_returns_the_row_witness :
  parseInt "4" = Num 4
  /\ In (client_row 4 "complete" 1) board
  /\ r_id (client_row 4 "complete" 1) = SInt 4
  /\ (forall r', In r' board -> sql_eq keyed Cid (r_id r') (SInt 4) = true ->
                 r' = client_row 4 "complete" 1)
  /\ serve (get_client keyed "4") board
     = (Returned tt, mkWorld board [(200, BRow (js_of_row (client_row 4 "complete" 1)))]).
Proof.
  assert (Hin : In (client_row 4 "complete" 1) board)
    by (right; right; right; left; reflexivity).
  assert (Huniq : forall r', In r' board ->
            sql_eq keyed Cid (r_id r') (SInt 4) = true ->
            r' = client_row 4 "complete" 1).
  { intros r' [<-|[<-|[<-|[<-|[<-|[]]]]]] H; cbn in H;
      first [discriminate H | reflexivity]. }
  split; [reflexivity|]. split; [exact Hin|]. split; [reflexivity|].
  split; [exact Huniq|].
  exact (get_client_returns_the_row keyed "4" 4 (client_row 4 "complete" 1) board
           eq_refl Hin eq_refl Huniq).
Defined.

(** X5.  [GET /api/v1/clients/:id] never writes, whatever the route
    parameter: the table after the request is the table before it. *)
Theorem get_client_reads_only sch id_param t :
  db (snd (serve (get_client sch id_param) t)) = t.
Proof.
  destruct (validateId_returns sch (parseInt id_param) (mkWorld t []))
    as (v & Hv & Hbad & Hgood).
  unfold serve, get_client.
  unfold bind at 1. rewrite Hv.
  unfold bind at 1.
  destruct (valid v) eqn:Hval; cbn [negb ret send sends db app];
    unfold bind at 1; rewrite prepare_by_id;
    unfold bind; rewrite get_by_id;
    match goal with
    | |- context [send 200 ?b ?w] =>
        destruct (send_effect 200 b w) as [o ->]
    end; reflexivity.
Qed.

(** ** Listing clients *)

Lemma Bind_one_string s : Bind [None] [VStr s] = inr [(1%nat, SText s)].
Proof. reflexivity. Qed.

Lemma prepare_by_status w :
  prepare "select * from clients where status = ?" w
  = (Returned (mkStatement (Select [(Cstatus, Param 1)] None) [None]), w).
Proof. reflexivity. Qed.

Lemma holds_by_status sch v r :
  holds sch [(1%nat, v)] [(Cstatus, Param 1)] r = sql_eq sch Cstatus (r_status r) v.
Proof. unfold holds. cbn. apply andb_true_r. Qed.

Lemma list_by_status sch lane w :
  (st <- prepare "select * from clients where status = ?" ;;
   clients <- stmt_all sch st [VStr lane] ;;
   send 200 (BRows clients))%handler w
  = send 200
      (BRows (map js_of_row
                (filter (fun r => sql_eq sch Cstatus (r_status r) (SText lane))
                   (db w)))) w.
Proof.
  unfold bind at 1. rewrite prepare_by_status.
  unfold bind at 1. unfold stmt_all, bind, lift. cbn [query parameters].
  rewrite Bind_one_string. cbn [ret]. unfold select_rows.
  rewrite (filter_ext _ _ (holds_by_status sch (SText lane))). reflexivity.
Qed.

Lemma get_clients_lane sch lane t :
  In lane lanes ->
  serve (get_clients sch (VStr lane)) t
  = (Returned tt,
     mkWorld t
       [(200,
         BRows (map js_of_row
                  (filter (fun r => sql_eq sch Cstatus (r_status r) (SText lane)) t)))]).
Proof.
  intros Hlane. unfold serve, get_clients.
  destruct Hlane as [<-|[<-|[<-|[]]]]; cbn [truthy strict_neq_str];
    cbv beta iota delta [String.eqb Ascii.eqb Bool.eqb negb andb];
    rewrite list_by_status; reflexivity.
Qed.

(** X6.  [GET /api/v1/clients?status=lane] for one of the three lanes returns
    after a single 200 whose body is exactly the rows with that status, in
    the order of the table, and leaves the table as it was. *)
Theorem get_clients_lists_the_lane sch lane t :
  In lane lanes ->
  serve (get_clients sch (VStr lane)) t
  = (Returned tt,
     mkWorld t
       [(200,
         BRows (map js_of_row
                  (filter (fun r => sql_eq sch Cstatus (r_status r) (SText lane)) t)))]).
Proof. exact (get_clients_lane sch lane t). Qed.

Lemma get_clients_lists_the_lane_witness :
  In "complete" lanes
  /\ serve (get_clients keyed (VStr "complete")) board
     = (Returned tt,
        mkWorld board
          [(200,
            BRows (map js_of_row
                     (filter (fun r => sql_eq keyed Cstatus (r_status r)
                                         (SText "complete")) board)))]).
Proof.
  assert (Hlane : In "complete" lanes) by (right; right; left; reflexivity).
  split; [exact Hlane|].
  exact (get_clients_lists_the_lane keyed "complete" board Hlane).
Defined.

(** X7.  Any [status] query value that is truthy and is not one of the three
    lane names, arrays and objects included, gets the 400 of line 85 and
    nothing else: no statement is run, and the handler returns. *)
Theorem get_clients_rejects_other_status sch status t :
  truthy status = true ->
  (forall lane, In lane lanes -> status <> VStr lane) ->
  serve (get_clients sch status) t
  = (Returned tt,
     mkWorld t
       [(400,
         BMessage "Invalid status provided."
           "Status can only be one of the following: [backlog | in-progress | complete].")]).
Proof.
  intros Htruthy Hnot. unfold serve, get_clients. rewrite Htruthy.
  assert (Hneq : forall lane, In lane lanes -> strict_neq_str status lane = true).
  { intros lane Hin. unfold strict_neq_str. destruct status; try reflexivity.
    destruct (String.eqb_spec s lane) as [->|]; [|reflexivity].
    exfalso. exact (Hnot lane Hin eq_refl). }
  rewrite (Hneq "backlog"), (Hneq "in-progress"), (Hneq "complete");
    [reflexivity| | |]; cbn; auto.
Qed.

Lemma get_clients_rejects_other_status_witness :
  truthy (VArr [VStr "backlog"; VStr "complete"]) = true
  /\ (forall lane, In lane lanes ->
        VArr [VStr "backlog"; VStr "complete"] <> VStr lane)
  /\ serve (get_clients keyed (VArr [VStr "backlog"; VStr "complete"])) board
     = (Returned tt,
        mkWorld board
          [(400,
            BMessage "Invalid status provided."
              "Status can only be one of the following: [backlog | in-progress | complete].")]).
Proof.
  assert (Hnot : forall lane, In lane lanes ->
            VArr [VStr "backlog"; VStr "complete"] <> VStr lane)
    by (intros lane _ H; discriminate H).
  split; [reflexivity|]. split; [exact Hnot|].
  exact (get_clients_rejects_other_status keyed
           (VArr [VStr "backlog"; VStr "complete"]) board eq_refl Hnot).
Defined.





(** ** Which requests get past the lookup of line 162 *)

Lemma BindValue_out_of_range v bs :
  exists e, BindValue [Some "status"; Some "priority"] v 3 bs = inl e.
Proof.
  unfold BindValue. destruct (sql_of_js v); eexists; reflexivity.
Qed.

Lemma Bind_args_scalar_fails v rest bs count bo :
  match v with VArr _ | VObj _ => False | _ => True end ->
  exists e,
    Bind_args [Some "status"; Some "priority"] (v :: rest) (mkBinder 0 bs) count bo
    = inl e.
Proof.
  intros Hv.
  destruct (BindValue_out_of_range v bs) as [e He].
  destruct v; try contradiction; cbn [Bind_args];
    change (NextAnonIndex [Some "status"; Some "priority"] (mkBinder 0 bs)) with 3%nat;
    cbn [bound]; rewrite He; eexists; reflexivity.
Qed.

Lemma BindArray_nonempty_fails x items bs :
  exists e,
    BindArray [Some "status"; Some "priority"] (x :: items) (mkBinder 0 bs) = inl e.
Proof.
  destruct (BindValue_out_of_range x bs) as [e He].
  cbn [BindArray].
  change (NextAnonIndex [Some "status"; Some "priority"] (mkBinder 0 bs)) with 3%nat.
  cbn [bound]. rewrite He. eexists; reflexivity.
Qed.

Lemma BindObject_position ps fields b b' n :
  BindObject ps fields b = inr (b', n) -> anon_index b' = anon_index b.
Proof.
  unfold BindObject. destruct (BindObject_pairs _ _ _ _) as [e|[bs m]]; [discriminate|].
  intros H. injection H as <- _. reflexivity.
Qed.

Lemma Bind_args_array ps items rest b count bo :
  Bind_args ps (VArr items :: rest) b count bo
  = match BindArray ps items b with
    | inl e => inl e
    | inr (b', n) => Bind_args ps rest b' (count + n)%nat bo
    end.
Proof. reflexivity. Qed.

Lemma Bind_args_object ps fields rest b count bo :
  Bind_args ps (VObj fields :: rest) b count bo
  = if bo
    then inl (TypeError
                "You cannot specify named parameters in two different objects")
    else
      match BindObject ps fields b with
      | inl e => inl e
      | inr (b', n) => Bind_args ps rest b' (count + n)%nat true
      end.
Proof. reflexivity. Qed.

(** What one more argument does after the first, the binder still standing
    before the first parameter: only an empty array lets the binding go on. *)
Lemma Bind_args_second v bs count bo r :
  Bind_args [Some "status"; Some "priority"] [v] (mkBinder 0 bs) count bo = inr r ->
  v = VArr [] \/ (bo = false /\ exists fields, v = VObj fields).
Proof.
  intros H.
  destruct v as [| |b|n|s|items|fields];
    try (match type of H with
         | Bind_args _ (?v :: _) _ _ _ = _ =>
             destruct (Bind_args_scalar_fails v [] bs count bo I) as [e He]
         end; rewrite He in H; discriminate H).
  - destruct items as [|x items]; [left; reflexivity|].
    rewrite Bind_args_array in H.
    destruct (BindArray_nonempty_fails x items bs) as [e He].
    rewrite He in H. discriminate H.
  - right. rewrite Bind_args_object in H. destruct bo; [discriminate H|].
    split; [reflexivity|]. exists fields. reflexivity.
Qed.

(** X9.  The lookup of line 162 passes [status] and [priority] by position
    to a statement whose two parameters are named.  Its arguments bind only
    when one of them is a plain object and the other an empty array: for
    every status and priority that is a string, a number, a boolean, [null]
    or [undefined], [get] throws. *)
Theorem conflict_lookup_binds_only_objects status priority bs :
  Bind [Some "status"; Some "priority"] [status; priority] = inr bs ->
  (exists fields, status = VObj fields /\ priority = VArr [])
  \/ (status = VArr [] /\ exists fields, priority = VObj fields).
Proof.
  unfold Bind. intros H.
  destruct (Bind_args _ _ _ _ _) as [e|[[b count] bo]] eqn:Hargs; [discriminate H|].
  destruct status as [| |b0|n|s|items|fields];
    try (match type of Hargs with
         | Bind_args _ (?v :: _) _ _ _ = _ =>
             destruct (Bind_args_scalar_fails v [priority] [] 0 false I) as [e He]
         end; rewrite He in Hargs; discriminate Hargs).
  - rewrite Bind_args_array in Hargs. destruct items as [|x items].
    + cbn [BindArray] in Hargs.
      destruct (Bind_args_second _ _ _ _ _ Hargs) as [-> | [_ [fields ->]]].
      * cbn in Hargs. injection Hargs as <- <- <-. cbn in H. discriminate H.
      * right. split; [reflexivity|]. exists fields. reflexivity.
    + destruct (BindArray_nonempty_fails x items []) as [e He].
      rewrite He in Hargs. discriminate Hargs.
  - rewrite Bind_args_object in Hargs.
    destruct (BindObject _ fields _) as [e|[b' n]] eqn:Hobj; [discriminate Hargs|].
    pose proof (BindObject_position _ _ _ _ _ Hobj) as Hpos. cbn in Hpos.
    destruct b' as [a bs']. cbn in Hpos. subst a.
    destruct (Bind_args_second _ _ _ _ _ Hargs) as [-> | [Hbo _]];
      [|discriminate Hbo].
    left. exists fields. split; reflexivity.
Qed.

Lemma conflict_lookup_binds_only_objects_witness :
  Bind [Some "status"; Some "priority"]
    [VObj [("status", VStr "backlog"); ("priority", VNumber (Num 2))]; VArr []]
  = inr [(2%nat, SInt 2); (1%nat, SText "backlog")]
  /\ ((exists fields,
         VObj [("status", VStr "backlog"); ("priority", VNumber (Num 2))] = VObj fields
         /\ VArr [] = VArr [])
      \/ (VObj [("status", VStr "backlog"); ("priority", VNumber (Num 2))] = VArr []
          /\ exists fields, VArr [] = VObj fields)).
Proof.
  split; [reflexivity|].
  exact (conflict_lookup_binds_only_objects
           (VObj [("status", VStr "backlog"); ("priority", VNumber (Num 2))])
           (VArr []) [(2%nat, SInt 2); (1%nat, SText "backlog")] eq_refl).
Defined.

(** ** The priority computed for the complete lane *)

Lemma last_item_map {A B : Type} (f : A -> B) (l : list A) :
  last_item (map f l) = option_map f (last_item l).
Proof.
  induction l as [|x l IH]; [reflexivity|].
  destruct l as [|y l]; [reflexivity|]. exact IH.
Qed.

Lemma newLowestPriority_last sch w l :
  last_item (select_rows sch [] [(Cstatus, Lit (SText "complete"))] None (db w))
  = Some l ->
  newLowestPriority sch w = lift (plus_one (js_of_sql (r_priority l))) w.
Proof.
  intros H. unfold newLowestPriority, bind.
  rewrite prepare_complete, complete_swimlane, last_item_map, H. reflexivity.
Qed.

(** X10.  [newLowestPriority] and [getLowestPriority] change nothing, and
    when the complete row scanned last has the safe integer p as its
    priority they return p + 1: one more than the last row's priority,
    whatever the other rows of the lane have. *)
Theorem lowest_priority_follows_last_row sch w l p :
  last_item (select_rows sch [] [(Cstatus, Lit (SText "complete"))] None (db w))
  = Some l ->
  r_priority l = SInt p ->
  is_safe_integer p = true ->
  newLowestPriority sch w = (Returned (VNumber (Num (p + 1))), w)
  /\ getLowestPriority sch w = (Returned (VNumber (Num (p + 1))), w).
Proof.
  intros Hlast Hp _. split.
  - rewrite (newLowestPriority_last sch w l Hlast), Hp. reflexivity.
  - unfold getLowestPriority, bind.
    rewrite prepare_complete, complete_swimlane, last_item_map, Hlast.
    cbn [option_map js_of_row j_priority]. rewrite Hp. reflexivity.
Qed.

Lemma lowest_priority_follows_last_row_witness :
  last_item (select_rows keyed [] [(Cstatus, Lit (SText "complete"))] None
               (db (mkWorld unordered_complete [])))
  = Some (client_row 3 "complete" 1)
  /\ r_priority (client_row 3 "complete" 1) = SInt 1
  /\ is_safe_integer 1 = true
  /\ newLowestPriority keyed (mkWorld unordered_complete [])
     = (Returned (VNumber (Num (1 + 1))), mkWorld unordered_complete [])
  /\ getLowestPriority keyed (mkWorld unordered_complete [])
     = (Returned (VNumber (Num (1 + 1))), mkWorld unordered_complete []).
Proof.
  split; [reflexivity|]. split; [reflexivity|]. split; [reflexivity|].
  apply (lowest_priority_follows_last_row keyed (mkWorld unordered_complete [])
           (client_row 3 "complete" 1) 1); reflexivity.
Defined.

(** ** A status that is not complete *)

(** X11.  A [PUT] for the id of a row, without a priority and with a status
    that is not loosely equal to [complete] (so also [backlog] and
    [in-progress]), writes nothing: it returns after one 200 with all rows,
    and the row keeps the status it had. *)
Theorem put_other_status_is_ignored sch id_param n r status t :
  parseInt id_param = Num n -> In r t -> r_id r = SInt n ->
  loose_eq_complete status = inr false ->
  serve (put_client sch id_param status VUndef) t
  = (Returned tt, mkWorld t [(200, BRows (map js_of_row t))]).
Proof.
  intros Hid Hin Hr Hs.
  assert (Hv : validateId sch (parseInt id_param) (mkWorld t [])
               = (Returned (mkValidation true BUndefined), mkWorld t [])).
  { rewrite Hid. apply (validateId_found sch n (mkWorld t []) r Hin).
    rewrite Hr. cbn. apply Z.eqb_refl. }
  rewrite (put_client_prefix sch id_param status VUndef t _ Hv).
  unfold bind. rewrite update_code_passthrough; [reflexivity|reflexivity|exact Hs].
Qed.

Lemma put_other_status_is_ignored_witness :
  parseInt "2" = Num 2 /\ In (client_row 2 "backlog" 2) board
  /\ r_id (client_row 2 "backlog" 2) = SInt 2
  /\ loose_eq_complete (VStr "in-progress") = inr false
  /\ serve (put_client unkeyed "2" (VStr "in-progress") VUndef) board
     = (Returned tt, mkWorld board [(200, BRows (map js_of_row board))]).
Proof.
  assert (Hin : In (client_row 2 "backlog" 2) board) by (right; left; reflexivity).
  split; [reflexivity|]. split; [exact Hin|]. split; [reflexivity|].
  split; [reflexivity|].
  apply (put_other_status_is_ignored unkeyed "2" 2 (client_row 2 "backlog" 2));
    [reflexivity | exact Hin | reflexivity | reflexivity].
Defined.

(** ** Marking complete on a table without the key *)

Lemma find_from_map {A B : Type} (f : A -> B) (p : B -> bool) (l : list A) :
  forall i,
    find_from p (map f l) i
    = option_map (fun '(j, x) => (j, f x)) (find_from (fun x => p (f x)) l i).
Proof.
  induction l as [|x l IH]; intros i; cbn; [reflexivity|].
  destruct (p (f x)); [reflexivity|apply IH].
Qed.

Lemma find_from_ext {A : Type} (p q : A -> bool) (l : list A) :
  (forall x, p x = q x) -> forall i, find_from p l i = find_from q l i.
Proof.
  intros H. induction l as [|x l IH]; intros i; cbn; [reflexivity|].
  rewrite H. destruct (q x); [reflexivity|apply IH].
Qed.

Lemma strict_eq_same_key v n :
  strict_eq_num (js_of_sql v) (Num n) = same_key v (SInt n).
Proof. destruct v; reflexivity. Qed.

Lemma Bind_insert_values a b c z p :
  Bind [None; None; None; None; None]
    [VNumber (Num z); js_of_sql a; js_of_sql b; VStr c; VNumber (Num p)]
  = inr [(5%nat, SInt p); (4%nat, SText c); (3%nat, b); (2%nat, a); (1%nat, SInt z)].
Proof. destruct a, b; reflexivity. Qed.

Lemma mark_complete_unkeyed sch clients i r n l p w :
  primary_key sch = false ->
  r_id r = SInt n ->
  last_item (select_rows sch [] [(Cstatus, Lit (SText "complete"))] None (db w))
  = Some l ->
  r_priority l = SInt p ->
  mark_complete sch clients (Some (i, js_of_row r)) (VStr "complete") w
  = (Returned
       (replace_at i
          (mkJsrow (VNumber (Num n)) (js_of_sql (r_name r))
             (js_of_sql (r_description r)) (VStr "complete")
             (VNumber (Num (p + 1))))
          clients),
     mkWorld
       (db w ++ [mkRow (SInt n) (r_name r) (r_description r) (SText "complete")
                   (SInt (p + 1))])%list
       (sends w)).
Proof.
  intros Hk Hr Hlast Hp.
  assert (Hnew : newLowestPriority sch w = (Returned (VNumber (Num (p + 1))), w)).
  { rewrite (newLowestPriority_last sch w l Hlast), Hp. reflexivity. }
  unfold mark_complete, bind. rewrite Hnew. rewrite Hnew.
  rewrite prepare_insert. unfold stmt_run, bind, lift.
  cbn [query parameters j_id j_name j_description js_of_row].
  rewrite Hr. cbn [js_of_sql]. rewrite Bind_insert_values. cbn [ret].
  unfold insert_row. rewrite Hk. reflexivity.
Qed.

(** X12.  On a table that does not enforce a key on [id], marking a client
    complete moves nothing.  On a table whose integers are all safe, with
    [r] the first row that has the id and [p] the priority of the complete
    row scanned last, the table keeps every row, [r] included, and gains a
    copy of [r] with status [complete] and priority p + 1; the 200 carries
    the array read before the [INSERT], in which the element for [r] shows
    the new status and priority. *)
Theorem unkeyed_complete_appends_a_copy sch id_param n i r l p t :
  primary_key sch = false ->
  forallb safe_row t = true ->
  parseInt id_param = Num n ->
  is_safe_integer n = true ->
  find_from (fun r' => same_key (r_id r') (SInt n)) t 0 = Some (i, r) ->
  last_item (select_rows sch [] [(Cstatus, Lit (SText "complete"))] None t) = Some l ->
  r_priority l = SInt p ->
  is_safe_integer p = true ->
  serve (put_client sch id_param (VStr "complete") VUndef) t
  = (Returned tt,
     mkWorld
       (t ++ [mkRow (SInt n) (r_name r) (r_description r) (SText "complete")
                (SInt (p + 1))])%list
       [(200,
         BRows (replace_at i
                  (mkJsrow (VNumber (Num n)) (js_of_sql (r_name r))
                     (js_of_sql (r_description r)) (VStr "complete")
                     (VNumber (Num (p + 1))))
                  (map js_of_row t)))]).
Proof.
  intros Hk _ Hid _ Hfind Hlast Hp _.
  destruct (find_from_in _ _ _ _ _ Hfind) as [Hin Hkey].
  assert (Hr : r_id r = SInt n).
  { destruct (r_id r) as [|z|s]; cbn in Hkey; try discriminate Hkey.
    apply Z.eqb_eq in Hkey. subst z. reflexivity. }
  assert (Hv : validateId sch (parseInt id_param) (mkWorld t [])
               = (Returned (mkValidation true BUndefined), mkWorld t [])).
  { rewrite Hid. apply (validateId_found sch n (mkWorld t []) r Hin).
    rewrite Hr. cbn. apply Z.eqb_refl. }
  rewrite (put_client_prefix sch id_param (VStr "complete") VUndef t _ Hv).
  rewrite Hid, find_from_map.
  rewrite (find_from_ext _ (fun r' => same_key (r_id r') (SInt n)) t
             (fun r' => strict_eq_same_key (r_id r') n)).
  rewrite Hfind. cbn [option_map valid].
  assert (Hcode :
    update_code sch (Num n) (VStr "complete") VUndef (map js_of_row t)
      (Some (i, js_of_row r)) (mkWorld t [])
    = mark_complete sch (map js_of_row t) (Some (i, js_of_row r)) (VStr "complete")
        (mkWorld t [])) by reflexivity.
  unfold bind. rewrite Hcode.
  rewrite (mark_complete_unkeyed sch (map js_of_row t) i r n l p (mkWorld t [])
             Hk Hr Hlast Hp).
  reflexivity.
Qed.

Lemma unkeyed_complete_appends_a_copy_witness :
  primary_key unkeyed = false
  /\ forallb safe_row unordered_complete = true
  /\ parseInt "1" = Num 1
  /\ is_safe_integer 1 = true
  /\ find_from (fun r' => same_key (r_id r') (SInt 1)) unordered_complete 0
     = Some (0%nat, client_row 1 "backlog" 1)
  /\ last_item (select_rows unkeyed [] [(Cstatus, Lit (SText "complete"))] None
                  unordered_complete)
     = Some (client_row 3 "complete" 1)
  /\ r_priority (client_row 3 "complete" 1) = SInt 1
  /\ is_safe_integer 1 = true
  /\ serve (put_client unkeyed "1" (VStr "complete") VUndef) unordered_complete
     = (Returned tt,
        mkWorld
          (unordered_complete
           ++ [mkRow (SInt 1) (r_name (client_row 1 "backlog" 1))
                 (r_description (client_row 1 "backlog" 1)) (SText "complete")
                 (SInt (1 + 1))])%list
          [(200,
            BRows (replace_at 0
                     (mkJsrow (VNumber (Num 1))
                        (js_of_sql (r_name (client_row 1 "backlog" 1)))
                        (js_of_sql (r_description (client_row 1 "backlog" 1)))
                        (VStr "complete") (VNumber (Num (1 + 1))))
                     (map js_of_row unordered_complete)))]).
Proof.
  split; [reflexivity|]. split; [reflexivity|]. split; [reflexivity|].
  split; [reflexivity|]. split; [reflexivity|]. split; [reflexivity|].
  split; [reflexivity|]. split; [reflexivity|].
  apply (unkeyed_complete_appends_a_copy unkeyed "1" 1 0 (client_row 1 "backlog" 1)
           (client_row 3 "complete" 1) 1 unordered_complete); reflexivity.
Defined.

(** ** Marking complete on a table with the key *)



(** ** Reading the id in the route *)

Lemma leading_digits_end rest acc :
  ends_number rest = true -> leading_digits rest acc = acc.
Proof.
  destruct rest as [|c rest]; [reflexivity|]. cbn.
  destruct (digit_of c); [discriminate|reflexivity].
Qed.

Lemma leading_digits_digit c k rest acc :
  digit_of c = Some k ->
  leading_digits (String c rest) acc
  = leading_digits rest
      (Some (10 * match acc with Some a => a | None => 0 end + k)).
Proof. intros H. cbn [leading_digits]. rewrite H. reflexivity. Qed.

Lemma leading_digits_acc d : forall rest a,
  ends_number rest = true ->
  leading_digits (NilEmpty.string_of_uint d ++ rest) (Some (Z.pos a))
  = Some (Z.pos (Pos.of_uint_acc d a)).
Proof.
  induction d; intros rest a Hrest;
    cbn [NilEmpty.string_of_uint append Pos.of_uint_acc];
    [apply leading_digits_end; exact Hrest | ..];
    (erewrite leading_digits_digit by reflexivity);
    rewrite <- (IHd rest _ Hrest); do 2 f_equal;
    match goal with
    | |- context [Z.of_nat ?n] =>
        let v := eval vm_compute in (Z.of_nat n) in change (Z.of_nat n) with v
    end; lia.
Qed.

Lemma leading_digits_zero d : forall rest,
  ends_number rest = true ->
  leading_digits (NilEmpty.string_of_uint d ++ rest) (Some 0)
  = Some (Z.of_N (Pos.of_uint d)).
Proof.
  induction d; intros rest Hrest;
    cbn [NilEmpty.string_of_uint append Pos.of_uint];
    [apply leading_digits_end; exact Hrest | ..];
    (erewrite leading_digits_digit by reflexivity);
    [apply IHd; exact Hrest | ..];
    cbn [Z.of_N]; rewrite <- (leading_digits_acc d rest _ Hrest); reflexivity.
Qed.

Lemma leading_digits_start d rest :
  ends_number rest = true ->
  leading_digits (NilZero.string_of_uint d ++ rest) None
  = Some (Z.of_N (Pos.of_uint d)).
Proof.
  intros Hrest.
  destruct d; cbn [NilZero.string_of_uint NilEmpty.string_of_uint append];
    (erewrite leading_digits_digit by reflexivity);
    [apply leading_digits_end; exact Hrest | ..];
    first [ exact (leading_digits_zero d rest Hrest)
          | cbn [Pos.of_uint Z.of_N];
            rewrite <- (leading_digits_acc d rest _ Hrest); reflexivity ].
Qed.

Lemma parseInt_digit_first c k s :
  digit_of c = Some k ->
  parseInt (String c s)
  = match leading_digits (String c s) None with
    | None => NaN
    | Some n => Num n
    end.
Proof.
  intros H.
  destruct c as [[] [] [] [] [] [] [] []]; try discriminate H; reflexivity.
Qed.

Lemma parseInt_unsigned d rest :
  ends_number rest = true ->
  parseInt (NilZero.string_of_uint d ++ rest) = Num (Z.of_N (Pos.of_uint d)).
Proof.
  intros Hrest. pose proof (leading_digits_start d rest Hrest) as H.
  destruct d; cbn [NilZero.string_of_uint NilEmpty.string_of_uint append] in *;
    (erewrite parseInt_digit_first by reflexivity); rewrite H; reflexivity.
Qed.

Lemma parseInt_negative d rest :
  ends_number rest = true ->
  parseInt (String "-" (NilZero.string_of_uint d ++ rest))
  = Num (- Z.of_N (Pos.of_uint d)).
Proof.
  intros Hrest. pose proof (leading_digits_start d rest Hrest) as H.
  unfold parseInt.
  change (skip_spaces (String "-" (NilZero.string_of_uint d ++ rest)))
    with (String "-" (NilZero.string_of_uint d ++ rest)).
  cbv beta iota zeta. rewrite H. reflexivity.
Qed.

(** In the model, where a number is an exact integer, [parseInt] reads back
    the decimal text of a safe integer and ignores what follows it. *)
Lemma parseInt_reads_decimal z rest :
  is_safe_integer z = true ->
  ends_number rest = true ->
  parseInt (number_to_string (Num z) ++ rest) = Num z.
Proof.
  intros _ Hrest. unfold number_to_string, NilZero.string_of_int, Z.to_int.
  destruct z as [|p|p].
  - exact (parseInt_unsigned (Decimal.D0 Decimal.Nil) rest Hrest).
  - rewrite (parseInt_unsigned (Pos.to_uint p) rest Hrest).
    rewrite DecimalPos.Unsigned.of_to. reflexivity.
  - cbn [append]. rewrite (parseInt_negative (Pos.to_uint p) rest Hrest).
    rewrite DecimalPos.Unsigned.of_to. reflexivity.
Qed.

Lemma get_client_one_row sch id_param n r t :
  parseInt id_param = Num n ->
  In r t -> r_id r = SInt n ->
  (forall r', In r' t -> sql_eq sch Cid (r_id r') (SInt n) = true -> r' = r) ->
  serve (get_client sch id_param) t
  = (Returned tt, mkWorld t [(200, BRow (js_of_row r))]).
Proof.
  intros Hid Hin Hr Huniq.
  assert (Hmatch : sql_eq sch Cid (r_id r) (SInt n) = true)
    by (rewrite Hr; cbn; apply Z.eqb_refl).
  unfold serve, get_client. rewrite Hid.
  unfold bind at 1.
  rewrite (validateId_found sch n (mkWorld t []) r Hin Hmatch).
  unfold bind at 1. cbn [valid negb ret].
  unfold bind at 1. rewrite prepare_by_id.
  unfold bind. rewrite get_by_id. cbn [db bound_id].
  unfold select_rows.
  rewrite (filter_ext _ _ (holds_by_id sch (SInt n))).
  pose proof (hd_filter_unique (fun r' => sql_eq sch Cid (r_id r') (SInt n)) t r
                Hin Hmatch Huniq) as Hhd.
  destruct (filter _ t) as [|y rest]; [discriminate Hhd|].
  cbn in Hhd. injection Hhd as ->. reflexivity.
Qed.

(** X16.  [GET /api/v1/clients/:id] whose route parameter is the decimal
    text of a safe integer, the id of exactly one row, followed by text that
    does not start with a digit, serves that row: the parameter [12abc] is
    answered with client 12, as [12] is.  The row's integers are safe. *)
Theorem get_client_ignores_text_after_the_id sch n rest r t :
  is_safe_integer n = true ->
  ends_number rest = true ->
  In r t -> r_id r = SInt n -> safe_row r = true ->
  (forall r', In r' t -> sql_eq sch Cid (r_id r') (SInt n) = true -> r' = r) ->
  serve (get_client sch (number_to_string (Num n) ++ rest)) t
  = (Returned tt, mkWorld t [(200, BRow (js_of_row r))]).
Proof.
  intros Hsafe Hrest Hin Hr _ Huniq.
  apply (get_client_one_row sch _ n r t); try assumption.
  apply parseInt_reads_decimal; assumption.
Qed.

Lemma get_client_ignores_text_after_the_id_witness :
  is_safe_integer 4 = true
  /\ ends_number "abc" = true
  /\ In (client_row 4 "complete" 1) board
  /\ r_id (client_row 4 "complete" 1) = SInt 4
  /\ safe_row (client_row 4 "complete" 1) = true
  /\ (forall r', In r' board -> sql_eq keyed Cid (r_id r') (SInt 4) = true ->
                 r' = client_row 4 "complete" 1)
  /\ serve (get_client keyed (number_to_string (Num 4) ++ "abc")) board
     = (Returned tt, mkWorld board [(200, BRow (js_of_row (client_row 4 "complete" 1)))]).
Proof.
  assert (Hin : In (client_row 4 "complete" 1) board)
    by (right; right; right; left; reflexivity).
  assert (Huniq : forall r', In r' board ->
            sql_eq keyed Cid (r_id r') (SInt 4) = true ->
            r' = client_row 4 "complete" 1).
  { intros r' [<-|[<-|[<-|[<-|[<-|[]]]]]] H; cbn in H;
      first [discriminate H | reflexivity]. }
  split; [reflexivity|]. split; [reflexivity|]. split; [exact Hin|].
  split; [reflexivity|]. split; [reflexivity|]. split; [exact Huniq|].
  exact (get_client_ignores_text_after_the_id keyed 4 "abc"
           (client_row 4 "complete" 1) board eq_refl eq_refl Hin eq_refl eq_refl
           Huniq).
Defined.

(** ** Which statuses count as complete *)

Lemma no_comma_in_complete s t : (s ++ String "," t)%string <> "complete".
Proof.
  intros H.
  repeat (destruct s as [|? s]; cbn in H; [discriminate H|]; injection H as _ H).
  destruct s; discriminate H.
Qed.

Lemma number_is_not_complete n : number_to_string n <> "complete".
Proof.
  destruct n as [z|]; [|discriminate].
  unfold number_to_string, NilZero.string_of_int, Z.to_int, NilZero.string_of_uint.
  destruct z as [|p|p]; [discriminate| |]; destruct (Pos.to_uint p); discriminate.
Qed.

Lemma to_string_singleton x :
  to_string (VArr [x])
  = match x with
    | VUndef | VNull => inr ""
    | _ => to_string x
    end.
Proof.
  change (to_string (VArr [x]))
    with (match (match x with
                 | VUndef | VNull => inr ""
                 | _ => to_string x
                 end) with
          | inl e => inl e
          | inr s => @inr exn string s
          end).
  destruct (match x with VUndef | VNull => inr "" | _ => to_string x end);
    reflexivity.
Qed.

Lemma to_string_joined x y rest :
  to_string (VArr (x :: y :: rest))
  = match (match x with
           | VUndef | VNull => inr ""
           | _ => to_string x
           end) with
    | inl e => inl e
    | inr s =>
        match to_string (VArr (y :: rest)) with
        | inl e => inl e
        | inr t => inr (s ++ "," ++ t)
        end
    end.
Proof. reflexivity. Qed.

Lemma complete_like_to_string v :
  complete_like v -> to_string v = inr "complete".
Proof.
  induction 1 as [|v Hv IH]; [reflexivity|].
  rewrite to_string_singleton. destruct Hv; exact IH.
Qed.

Lemma to_string_complete_like : forall v,
  to_string v = inr "complete" -> complete_like v.
Proof.
  fix IH 1. intros v H.
  destruct v as [| |b|n|s|items|fields].
  - discriminate H.
  - discriminate H.
  - destruct b; discriminate H.
  - cbn in H. injection H as H. destruct (number_is_not_complete n H).
  - cbn in H. injection H as ->. constructor.
  - destruct items as [|x [|y rest]].
    + discriminate H.
    + apply complete_array. apply IH.
      rewrite to_string_singleton in H.
      destruct x; try discriminate H; exact H.
    + exfalso. rewrite to_string_joined in H.
      destruct (match x with VUndef | VNull => inr "" | _ => to_string x end)
        as [e1|s1]; [discriminate H|].
      destruct (to_string (VArr (y :: rest))) as [e2|s2]; [discriminate H|].
      injection H as H. exact (no_comma_in_complete _ _ H).
  - cbn in H. destruct (get_field "toString" fields); discriminate H.
Qed.

(** X17.  The test of line 195 is a loose equality: besides the string
    [complete] it is true exactly for arrays of one element that is itself
    taken for [complete], such as [["complete"]], and for nothing else. *)
Theorem loose_complete_is_string_or_nested_array v :
  loose_eq_complete v = inr true <-> complete_like v.
Proof.
  split.
  - intros H. destruct v as [| |b|n|s|items|fields]; try discriminate H.
    + cbn in H. injection H as H. apply String.eqb_eq in H. subst s. constructor.
    + apply to_string_complete_like. unfold loose_eq_complete in H.
      destruct (to_string (VArr items)) as [e|s]; [discriminate H|].
      injection H as H. apply String.eqb_eq in H. subst s. reflexivity.
    + unfold loose_eq_complete in H. cbn [to_string] in H.
      destruct (get_field "toString" fields); discriminate H.
  - intros H. pose proof (complete_like_to_string v H) as Hs.
    destruct H; [reflexivity|].
    unfold loose_eq_complete. rewrite Hs. reflexivity.
Qed.

(** ** The array a [PUT] answers with *)





